(** * Intervention: technology-driven fuzzing orchestration

    A shallow embedding of [intervention.py] and the properties of its
    pure parts: the normalisation of technology names, the construction
    of the technology-to-wordlist mapping from the dictionary directory,
    the wordlist lookup, the occurrence filter over discovery records and
    the per-URL loop that assembles the saved report.

    Conventions of the embedding.
    - Python [str] is Rocq's [string]; the names handled here are ASCII,
      and [lower] folds the letters A-Z only.
    - Python dictionaries whose iteration order is observable
      ([tech_to_dict], [tech_results_map]) are insertion-ordered
      association lists; dictionaries used as plain maps (a discovery
      record, a per-technology entry, the length counter) are [gmap]s.
    - A call that may leave through [sys.exit] or an uncaught exception
      returns a [py_result]; what a subprocess or the file system
      answers is an argument of the function that asks.
    - Console output, and the [verbose] flag that only governs it, are
      left out. *)

From Stdlib Require Import ZArith Ascii String List Bool Lia.
From stdpp Require Import base option list strings gmap.

Local Open Scope string_scope.

(** ** Python string primitives *)

Module PyStr.

(** [c.isupper()] restricted to ASCII. *)
Definition is_upper (c : ascii) : bool :=
  let n := N_of_ascii c in (65 <=? n)%N && (n <=? 90)%N.

Definition lower_char (c : ascii) : ascii :=
  if is_upper c then ascii_of_N (N_of_ascii c + 32) else c.

(** [s.lower()] *)
Fixpoint lower (s : string) : string :=
  match s with
  | EmptyString => EmptyString
  | String c s' => String (lower_char c) (lower s')
  end.

(** [s.startswith(p)] *)
Fixpoint startswith (p s : string) : bool :=
  match p, s with
  | EmptyString, _ => true
  | String _ _, EmptyString => false
  | String a p', String b s' => Ascii.eqb a b && startswith p' s'
  end.

(** [sub in s]: [sub] occurs in [s] as a contiguous substring. *)
Fixpoint contains (sub s : string) : bool :=
  startswith sub s ||
  match s with
  | EmptyString => false
  | String _ s' => contains sub s'
  end.

(** [s.replace(old, new)] for a non-empty [old]: the occurrences of
    [old] are found scanning from the left and do not overlap.  [skip]
    counts the characters of the occurrence just replaced that are
    still to be passed over. *)
Fixpoint replace_go (old new : string) (skip : nat) (s : string) : string :=
  match s with
  | EmptyString => EmptyString
  | String c s' =>
      match skip with
      | S k => replace_go old new k s'
      | O =>
          if startswith old s
          then new ++ replace_go old new (String.length old - 1) s'
          else String c (replace_go old new 0 s')
      end
  end.

Definition replace (old new s : string) : string := replace_go old new 0 s.

(** [s.lstrip(c)], [s.rstrip(c)] and [s.strip(c)] for a one-character
    argument. *)
Fixpoint lstrip (c : ascii) (s : string) : string :=
  match s with
  | EmptyString => EmptyString
  | String a s' => if Ascii.eqb a c then lstrip c s' else s
  end.

Fixpoint rstrip (c : ascii) (s : string) : string :=
  match s with
  | EmptyString => EmptyString
  | String a s' =>
      match rstrip c s' with
      | EmptyString => if Ascii.eqb a c then EmptyString else String a EmptyString
      | r => String a r
      end
  end.

Definition strip (c : ascii) (s : string) : string := rstrip c (lstrip c s).

(** Every character of [s] satisfies [P]. *)
Fixpoint all_chars (P : ascii -> bool) (s : string) : bool :=
  match s with
  | EmptyString => true
  | String c s' => P c && all_chars P s'
  end.

Definition is_not (c : ascii) : ascii -> bool := fun x => negb (Ascii.eqb x c).

End PyStr.

(** ** [Intervention._normalize_tech_name] *)

Definition _normalize_tech_name (tech_name : string) : string :=
  let tech_name := PyStr.lower tech_name in
  let tech_name := PyStr.replace " " "-" tech_name in
  let tech_name := PyStr.replace "_" "-" tech_name in
  let tech_name := PyStr.replace "." "" tech_name in
  let tech_name := PyStr.replace "detect" "" tech_name in
  let tech_name := PyStr.replace "detection" "" tech_name in
  let tech_name := PyStr.replace "-detect" "" tech_name in
  let tech_name := PyStr.replace "-detection" "" tech_name in
  PyStr.strip "-" tech_name.

(** ** Python values, dictionaries and outcomes *)

(** The JSON scalars that occur as field values of a discovery record. *)
Inductive value : Type :=
  | VNone
  | VBool (b : bool)
  | VInt (n : Z)
  | VStr (s : string).

#[global] Instance value_eq_dec : EqDecision value.
Proof. solve_decision. Defined.

Definition value_encode (v : value) : (unit + bool) + (Z + string) :=
  match v with
  | VNone => inl (inl tt)
  | VBool b => inl (inr b)
  | VInt n => inr (inl n)
  | VStr s => inr (inr s)
  end.

Definition value_decode (x : (unit + bool) + (Z + string)) : value :=
  match x with
  | inl (inl _) => VNone
  | inl (inr b) => VBool b
  | inr (inl n) => VInt n
  | inr (inr s) => VStr s
  end.

#[global] Instance value_countable : Countable value :=
  inj_countable' value_encode value_decode
    (fun v => match v with VNone | VBool _ | VInt _ | VStr _ => eq_refl end).

(** A discovery record is a JSON object. *)
Abbreviation record := (gmap string value).

(** Python hashes and compares [True] as [1] and [False] as [0], so as
    dictionary keys they coincide. *)
Definition dict_key (v : value) : value :=
  match v with
  | VBool b => VInt (Z.b2z b)
  | _ => v
  end.

(** Insertion-ordered dictionary with string keys. *)
Module Dict.

Definition t (V : Type) : Type := list (string * V).

(** [d.get(k)] *)
Fixpoint get {V} (k : string) (d : t V) : option V :=
  match d with
  | [] => None
  | (k', v) :: d' => if String.eqb k k' then Some v else get k d'
  end.

(** [k in d] *)
Definition mem {V} (k : string) (d : t V) : bool :=
  match get k d with Some _ => true | None => false end.

(** [d[k] = v]: an existing key keeps its position, a new one goes last. *)
Fixpoint set {V} (k : string) (v : V) (d : t V) : t V :=
  match d with
  | [] => [(k, v)]
  | (k', v') :: d' =>
      if String.eqb k k' then (k', v) :: d' else (k', v') :: set k v d'
  end.

(** [list(d.keys())] *)
Definition keys {V} (d : t V) : list string := map fst d.

End Dict.

Inductive exn : Type :=
  | AttributeError
  | OtherError.

(** How a call ends: with a value, through [sys.exit(code)], or with an
    exception no handler of the callee catches. *)
Inductive py_result (A : Type) : Type :=
  | Return (a : A)
  | SysExit (code : Z)
  | Raise (e : exn).
Arguments Return {A} a.
Arguments SysExit {A} code.
Arguments Raise {A} e.

#[global] Instance py_result_ret : MRet py_result := fun A a => Return a.
#[global] Instance py_result_bind : MBind py_result := fun A B k m =>
  match m with
  | Return a => k a
  | SysExit c => SysExit c
  | Raise e => Raise e
  end.

(** How [subprocess.run] ends. *)
Inductive proc_outcome (A : Type) : Type :=
  | Completed (a : A)
  | TimeoutExpired
  | FileNotFoundError
  | OtherException.
Arguments Completed {A} a.
Arguments TimeoutExpired {A}.
Arguments FileNotFoundError {A}.
Arguments OtherException {A}.

(** ** [Intervention._load_technologies] *)

Definition newline : ascii := ascii_of_nat 10.

(** The tail [_(short|long)\.txt$] of the file-name pattern; [$] also
    matches before one final newline. *)
Definition suffix_type (rest : string) : option string :=
  if String.eqb rest "_short.txt"
     || String.eqb rest (String.append "_short.txt" (String newline "")) then Some "short"
  else if String.eqb rest "_long.txt"
     || String.eqb rest (String.append "_long.txt" (String newline "")) then Some "long"
  else None.

(** [re.compile(r'^(.+?)_(short|long)\.txt$').match(name)], giving
    [(group(1), group(2))]: the lazy group takes the shortest non-empty
    prefix free of newlines that leaves a matching tail. *)
Fixpoint pattern_match (name : string) : option (string * string) :=
  match name with
  | EmptyString => None
  | String c rest =>
      if Ascii.eqb c newline then None
      else match suffix_type rest with
           | Some dict_type => Some (String c "", dict_type)
           | None =>
               match pattern_match rest with
               | Some (tech_name, dict_type) => Some (String c tech_name, dict_type)
               | None => None
               end
           end
  end.

(** [s.endswith(suf)] *)
Fixpoint endswith (suf s : string) : bool :=
  String.eqb s suf ||
  match s with
  | EmptyString => false
  | String _ s' => endswith suf s'
  end.

(** [dict_path.glob("*.txt")] over the names found in the directory. *)
Definition glob_txt (entries : list string) : list string :=
  filter (fun name => endswith ".txt" name = true) entries.

(** [str(file)] for the file [name] of the directory [dict_path]. *)
Definition file_path (dict_path name : string) : string :=
  dict_path ++ "/" ++ name.

Abbreviation entry := (gmap string string).
Abbreviation tech_map := (Dict.t (gmap string string)).

(** One iteration of the loop over the globbed files.  The local set
    [techs] only feeds a log line and is left out. *)
Definition load_file (mode dict_path : string) (tech_to_dict : tech_map)
    (name : string) : tech_map :=
  match pattern_match name with
  | Some (tech_name, dict_type) =>
      let tech_to_dict :=
        if Dict.mem tech_name tech_to_dict then tech_to_dict
        else Dict.set tech_name ∅ tech_to_dict in
      if String.eqb dict_type mode
         || (String.eqb dict_type "long" && String.eqb mode "long")
      then
        let slot := default ∅ (Dict.get tech_name tech_to_dict) in
        Dict.set tech_name (<[dict_type := file_path dict_path name]> slot)
          tech_to_dict
      else tech_to_dict
  | None => tech_to_dict
  end.

(** The loop of [_load_technologies], from the empty [tech_to_dict] of
    [__init__]. *)
Definition load_directory (mode dict_path : string) (entries : list string)
    : tech_map :=
  foldl (load_file mode dict_path) [] (glob_txt entries).

(** [_load_technologies]; [listing] is [None] when the dictionary
    directory does not exist. *)
Definition _load_technologies (mode dict_path : string)
    (listing : option (list string)) : py_result tech_map :=
  match listing with
  | None => SysExit 1
  | Some entries => Return (load_directory mode dict_path entries)
  end.

(** ** [Intervention._find_matching_dict] *)

(** Which arm of the [if mode in ... elif "long" in ... elif "short" in ...]
    chain produced the path. *)
Inductive branch : Type :=
  | ByMode
  | FallbackLong
  | FallbackShort.

(** The chain the lookup runs on one entry, with the arm taken. *)
Definition select_branch (mode : string) (e : entry) : option (branch * string) :=
  match e !! mode with
  | Some p => Some (ByMode, p)
  | None =>
      match e !! "long" with
      | Some p => Some (FallbackLong, p)
      | None =>
          match e !! "short" with
          | Some p => Some (FallbackShort, p)
          | None => None
          end
      end
  end.

(** The loop over [tech_to_dict.keys()]: both the [normalized == tech]
    arm and the substring arm run the same chain and go on to the next
    key when it yields nothing. *)
Fixpoint find_loop (mode normalized : string) (d : tech_map)
    : option (branch * string) :=
  match d with
  | [] => None
  | (tech, e) :: d' =>
      if String.eqb normalized tech then
        match select_branch mode e with
        | Some r => Some r
        | None => find_loop mode normalized d'
        end
      else if PyStr.contains normalized tech || PyStr.contains tech normalized then
        match select_branch mode e with
        | Some r => Some r
        | None => find_loop mode normalized d'
        end
      else find_loop mode normalized d'
  end.

(** [_find_matching_dict] together with the arm that returned. *)
Definition find_matching_branch (mode : string) (tech_to_dict : tech_map)
    (tech_name : string) : option (branch * string) :=
  let normalized := _normalize_tech_name tech_name in
  match Dict.get normalized tech_to_dict ≫= select_branch mode with
  | Some r => Some r
  | None => find_loop mode normalized tech_to_dict
  end.

Definition _find_matching_dict (mode : string) (tech_to_dict : tech_map)
    (tech_name : string) : option string :=
  snd <$> find_matching_branch mode tech_to_dict tech_name.

(** ** [Intervention.analyze_results] *)

(** [result.get("length", 0)], as the key it makes in [length_counts]. *)
Definition result_length (result : record) : value :=
  dict_key (default (VInt 0) (result !! "length")).

(** The first loop: [length_counts[length] += 1] on a [defaultdict(int)]. *)
Definition count_lengths (results : list record) : gmap value nat :=
  foldl (fun length_counts result =>
           let length := result_length result in
           <[length := S (default 0%nat (length_counts !! length))]> length_counts)
        ∅ results.

Definition analyze_results (occurrence : Z) (results : list record) : list record :=
  let length_counts := count_lengths results in
  omap (fun result =>
          let length := result_length result in
          let count := default 0%nat (length_counts !! length) in
          if (Z.of_nat count <=? occurrence)%Z
          then Some (<["occurrence_count" := VInt (Z.of_nat count)]> result)
          else None)
       results.

(** ** [Intervention.detect_technologies] *)

(** The two kinds of object the method asks [.exists()] of. *)
Inductive pyobj : Type :=
  | PathObj (p : string)
  | StrObj (s : string).

(** [o.exists()]: a [Path] answers from the file system, a [str] has no
    such attribute. *)
Definition call_exists (fs_exists : string -> bool) (o : pyobj) : py_result bool :=
  match o with
  | PathObj p => Return (fs_exists p)
  | StrObj _ => Raise AttributeError
  end.

(** One line of nuclei's output, as [json.loads] and the key tests see it. *)
Inductive nuclei_line : Type :=
  | BlankLine
  | NotJson
  | Finding (matcher_name : option string)
            (info : option (option string * option (list string))).

(** What nuclei printed when it ran to completion. *)
Record nuclei_output : Type := {
  returncode : Z;
  stdout : list nuclei_line
}.

(** The name a finding carries, if any. *)
Definition finding_name (l : nuclei_line) : option string :=
  match l with
  | BlankLine | NotJson => None
  | Finding (Some m) _ => Some m
  | Finding None (Some (Some n, _)) => Some n
  | Finding None (Some (None, Some (t :: _))) => Some t
  | Finding None _ => None
  end.

(** The loop over [result.stdout.splitlines()]. *)
Definition parse_stdout (lines : list nuclei_line) : gset string :=
  foldl (fun detected l =>
           match finding_name l with
           | Some tech_name =>
               if String.eqb tech_name "" then detected
               else {[ _normalize_tech_name tech_name ]} ∪ detected
           | None => detected
           end)
        ∅ lines.

(** The [try] statement around the nuclei run, with its handlers. *)
Definition detect_try (run : proc_outcome nuclei_output) : py_result (gset string) :=
  match run with
  | Completed out => Return (parse_stdout (stdout out))
  | TimeoutExpired => Return ∅
  | FileNotFoundError => SysExit 1
  | OtherException => Return ∅
  end.

Definition detect_technologies (nuclei_templates_path : string)
    (fs_exists : string -> bool) (run : proc_outcome nuclei_output)
    : py_result (gset string) :=
  let tech_detect_path :=
    PathObj (nuclei_templates_path ++ "/http/technologies/tech-detect.yaml") in
  let favicon_path :=
    PathObj (nuclei_templates_path ++ "/http/technologies/favicon-detect.yaml") in
  let exposures_path := StrObj "" in
  let exposed_panels_path := StrObj "" in
  b1 ← call_exists fs_exists tech_detect_path;
  b2 ← call_exists fs_exists favicon_path;
  b3 ← call_exists fs_exists exposures_path;
  b4 ← call_exists fs_exists exposed_panels_path;
  if negb (b1 || b2 || b3 || b4) then Return ∅
  else detect_try run.

(** ** [Intervention.run_ffuf] *)

(** The output file ffuf leaves behind, as [json.load] sees it. *)
Inductive ffuf_file : Type :=
  | NoOutputFile
  | Unparsable
  | Parsed (results : option (list record)).

Definition run_ffuf (run : proc_outcome ffuf_file) : py_result (list record) :=
  match run with
  | Completed NoOutputFile => Return []
  | Completed Unparsable => Return []
  | Completed (Parsed None) => Return []
  | Completed (Parsed (Some results)) => Return results
  | TimeoutExpired => Return []
  | FileNotFoundError => SysExit 1
  | OtherException => Return []
  end.

(** ** [Intervention.process_url] and [Intervention._save_results] *)

(** [Path(p).name] of a path that ends in a file name. *)
Fixpoint path_name (p : string) : string :=
  match p with
  | EmptyString => EmptyString
  | String c p' =>
      if PyStr.contains "/" p' then path_name p'
      else if Ascii.eqb c "/" then p' else p
  end.

(** The object [_save_results] dumps as JSON. *)
Record report : Type := {
  report_url : string;
  report_mode : string;
  occurrence_threshold : Z;
  technologies_detected : list string;
  results_by_tech : Dict.t nat;
  report_results : list record
}.

(** What the loop of [process_url] builds up: the two locals, the
    instance's [ffuf_results], and the ffuf runs launched so far as
    (wordlist, technology) pairs. *)
Record loop_state : Type := {
  all_results : list record;
  tech_results_map : Dict.t (list record);
  ffuf_results : Dict.t (list record);
  launched : list (string * string)
}.

Definition initial_state : loop_state :=
  {| all_results := []; tech_results_map := []; ffuf_results := []; launched := [] |}.

(** [result["tech"] = tech; result["dict_used"] = Path(dict_path).name] *)
Definition annotate (tech dict_path : string) (result : record) : record :=
  <["dict_used" := VStr (path_name dict_path)]> (<["tech" := VStr tech]> result).

Section ProcessUrl.

Variable mode : string.
Variable occurrence : Z.
Variable tech_to_dict : tech_map.
Variable url : string.

(** How the ffuf run for a wordlist and a technology ends. *)
Variable ffuf : string -> string -> proc_outcome ffuf_file.

(** The body of [for tech in detected_techs]. *)
Definition process_tech (st : loop_state) (tech : string) : py_result loop_state :=
  match _find_matching_dict mode tech_to_dict tech with
  | None => Return st
  | Some dict_path =>
      if String.eqb dict_path "" then Return st
      else
        results ← run_ffuf (ffuf dict_path tech);
        let st := {| all_results := all_results st;
                     tech_results_map := tech_results_map st;
                     ffuf_results := ffuf_results st;
                     launched := launched st ++ [(dict_path, tech)] |} in
        match results with
        | [] => Return st
        | _ :: _ =>
            match analyze_results occurrence results with
            | [] => Return st
            | analyzed =>
                let analyzed := map (annotate tech dict_path) analyzed in
                Return {| all_results := all_results st ++ analyzed;
                          tech_results_map := Dict.set tech analyzed (tech_results_map st);
                          ffuf_results :=
                            Dict.set (url ++ "_" ++ tech) analyzed (ffuf_results st);
                          launched := launched st |}
            end
        end
  end.

Fixpoint process_techs (st : loop_state) (techs : list string) : py_result loop_state :=
  match techs with
  | [] => Return st
  | tech :: techs' => st' ← process_tech st tech; process_techs st' techs'
  end.

(** [_save_results]: the dumped object. *)
Definition _save_results (results : list record)
    (tech_results_map : Dict.t (list record)) : report :=
  {| report_url := url;
     report_mode := mode;
     occurrence_threshold := occurrence;
     technologies_detected := Dict.keys tech_results_map;
     results_by_tech := map (fun '(tech, results_list) => (tech, length results_list))
                            tech_results_map;
     report_results := results |}.

(** [process_url] from the point where detection has returned;
    [detected_techs] lists the detected set in its iteration order.
    The result is the report saved, if one is. *)
Definition process_detected (detected_techs : list string) : py_result (option report) :=
  match detected_techs with
  | [] => Return None
  | _ =>
      st ← process_techs initial_state detected_techs;
      match all_results st with
      | [] => Return None
      | all_results => Return (Some (_save_results all_results (tech_results_map st)))
      end
  end.

Variable nuclei_templates_path : string.
Variable fs_exists : string -> bool.
Variable nuclei : proc_outcome nuclei_output.

Definition process_url : py_result (option report) :=
  detected_techs ← detect_technologies nuclei_templates_path fs_exists nuclei;
  process_detected (elements detected_techs).

End ProcessUrl.

(** ** The combined filter of the specification *)

(** The wordlists the loop fuzzes with: one (technology, wordlist) pair
    for every detected technology that has a wordlist. *)
Definition fuzzed (mode : string) (tech_to_dict : tech_map) (techs : list string)
    : list (string * string) :=
  omap (fun tech =>
          match _find_matching_dict mode tech_to_dict tech with
          | Some dict_path =>
              if String.eqb dict_path "" then None else Some (tech, dict_path)
          | None => None
          end)
       techs.

(** The records a run returned, [[]] when the call did not return. *)
Definition returned (r : py_result (list record)) : list record :=
  match r with
  | Return results => results
  | _ => []
  end.

(** The filter as the specification words it: the records of all the
    runs for a URL are put together, each carrying its technology and
    wordlist, and the occurrence filter runs once over that union. *)
Definition spec_combined_results (mode : string) (occurrence : Z)
    (tech_to_dict : tech_map) (ffuf : string -> string -> proc_outcome ffuf_file)
    (techs : list string) : list record :=
  analyze_results occurrence
    (concat (map (fun '(tech, dict_path) =>
                    map (annotate tech dict_path) (returned (run_ffuf (ffuf dict_path tech))))
                 (fuzzed mode tech_to_dict techs))).

(** The list the code builds: every run is filtered on its own and the
    surviving records are appended in the order of the runs. *)
Definition per_tech_results (mode : string) (occurrence : Z)
    (tech_to_dict : tech_map) (ffuf : string -> string -> proc_outcome ffuf_file)
    (techs : list string) : list record :=
  concat (map (fun '(tech, dict_path) =>
                 map (annotate tech dict_path)
                     (analyze_results occurrence (returned (run_ffuf (ffuf dict_path tech)))))
              (fuzzed mode tech_to_dict techs)).

(** ** Vocabulary of the statements *)

(** The number of records of [results] whose length is that of [r]. *)
Definition occurrences (results : list record) (r : record) : nat :=
  length (filter (fun r' => result_length r' = result_length r) results).

(** The record [analyze_results] emits for a kept record. *)
Definition with_count (results : list record) (r : record) : record :=
  <["occurrence_count" := VInt (Z.of_nat (occurrences results r))]> r.

(** The frame property in its strong form: some subsequence of the input
    lines up with the output, and every field of an input record has
    the same value in the corresponding output record. *)
Definition keeps_every_field (occurrence : Z) (results : list record) : Prop :=
  exists kept : list record,
    kept `sublist_of` results
    /\ Forall2 (fun r_in r_out : record =>
                  forall k v, r_in !! k = Some v -> r_out !! k = Some v)
               kept (analyze_results occurrence results).

(** A record that already carries an [occurrence_count]. *)
Definition counted_record : record :=
  <["occurrence_count" := VInt 99]> (<["length" := VInt 5]> ∅).

(** The naming convention of the dictionary directory. *)
Definition follows_convention (name tech_name dict_type : string) : Prop :=
  name = tech_name ++ "_" ++ dict_type ++ ".txt"
  /\ (dict_type = "short" \/ dict_type = "long")
  /\ tech_name <> ""
  /\ PyStr.all_chars (PyStr.is_not newline) tech_name = true.

(** The last character of a string. *)
Fixpoint last_char (s : string) : option ascii :=
  match s with
  | EmptyString => None
  | String c s' =>
      match last_char s' with
      | Some d => Some d
      | None => Some c
      end
  end.

(** The loader in its strong form: every file that follows the convention has its
    path recorded, under its type, in the entry of its technology. *)
Definition records_every_wordlist : Prop :=
  forall (mode dict_path : string) (entries : list string)
         (name tech_name dict_type : string),
    name ∈ entries ->
    follows_convention name tech_name dict_type ->
    exists e : entry,
      Dict.get tech_name (load_directory mode dict_path entries) = Some e
      /\ e !! dict_type = Some (file_path dict_path name).


(** An entry that holds nothing under a type other than [mode]. *)
Definition mode_only (mode : string) (e : entry) : Prop :=
  forall dict_type, is_Some (e !! dict_type) -> dict_type = mode.

(** [normalized] and the key [tech] match: they are equal, or one is a
    substring of the other. *)
Definition key_matches (normalized tech : string) : bool :=
  String.eqb normalized tech
  || PyStr.contains normalized tech || PyStr.contains tech normalized.

(** The lookup in its strong form: it returns a path exactly when the
    normalised name matches some key of the loaded mapping. *)
Definition returns_path_iff_key_matches : Prop :=
  forall (mode dict_path : string) (entries : list string) (tech_name : string),
    is_Some (_find_matching_dict mode (load_directory mode dict_path entries) tech_name)
    <-> exists key,
          key ∈ Dict.keys (load_directory mode dict_path entries)
          /\ key_matches (_normalize_tech_name tech_name) key = true.

(** No fuzzing run of [runs] fails for want of the ffuf binary. *)
Definition ffuf_installed (ffuf : string -> string -> proc_outcome ffuf_file)
    (runs : list (string * string)) : bool :=
  forallb (fun '(tech, dict_path) =>
             match ffuf dict_path tech with
             | FileNotFoundError => false
             | _ => true
             end)
          runs.

(** The records of the report a call ended with, if it saved one. *)
Definition final_results (r : py_result (option report)) : list record :=
  match r with
  | Return (Some rep) => report_results rep
  | _ => []
  end.

(** The wordlist the loop fuzzes with for [tech], if any. *)
Definition tech_wordlist (mode : string) (tech_to_dict : tech_map) (tech : string)
    : option string :=
  match _find_matching_dict mode tech_to_dict tech with
  | Some dict_path => if String.eqb dict_path "" then None else Some dict_path
  | None => None
  end.

(** The state after the run for [tech] returned [results]. *)
Definition record_run (occurrence : Z) (url : string) (st : loop_state)
    (tech dict_path : string) (results : list record) : loop_state :=
  match map (annotate tech dict_path) (analyze_results occurrence results) with
  | [] => {| all_results := all_results st;
             tech_results_map := tech_results_map st;
             ffuf_results := ffuf_results st;
             launched := launched st ++ [(dict_path, tech)] |}
  | analyzed =>
      {| all_results := all_results st ++ analyzed;
         tech_results_map := Dict.set tech analyzed (tech_results_map st);
         ffuf_results := Dict.set (url ++ "_" ++ tech) analyzed (ffuf_results st);
         launched := launched st ++ [(dict_path, tech)] |}
  end.

(** A directory with two wordlists and an ffuf that finds, for either
    technology, one page of 5 bytes. *)
Definition two_wordlists : tech_map :=
  load_directory "long" "dict" ["php_long.txt"; "nginx_long.txt"].

Definition one_page (dict_path tech : string) : proc_outcome ffuf_file :=
  Completed (Parsed (Some [<["length" := VInt 5]> (<["status" := VInt 200]> ∅)])).

(** [r] is annotated with the technology [tech]. *)
Definition tagged (tech : string) (r : record) : Prop :=
  r !! "tech" = Some (VStr tech).

#[global] Instance tagged_dec (tech : string) (r : record) : Decision (tagged tech r) :=
  decide (r !! "tech" = Some (VStr tech)).

(** The consistency of a report: each per-technology count is the
    number of records annotated with that technology, the counts add up
    to the number of records, and the technologies listed are those that
    annotate a record; both listings name the same technologies. *)
Definition report_consistent (rep : report) : Prop :=
  (forall tech n, (tech, n) ∈ results_by_tech rep ->
     n = length (filter (tagged tech) (report_results rep)))
  /\ sum_list (map snd (results_by_tech rep)) = length (report_results rep)
  /\ (forall tech, tech ∈ technologies_detected rep
                   <-> exists r, r ∈ report_results rep /\ tagged tech r)
  /\ technologies_detected rep = map fst (results_by_tech rep).

(** What holds of the loop's state once the technologies [done] have
    been handled. *)
Definition loop_invariant (st : loop_state) (done : list string) : Prop :=
  all_results st = concat (map snd (tech_results_map st))
  /\ Forall (fun x => x.2 <> [] /\ Forall (tagged x.1) x.2 /\ x.1 ∈ done)
            (tech_results_map st)
  /\ NoDup (Dict.keys (tech_results_map st)).

(** The report of the two-wordlist run. *)
Definition two_wordlists_report : report :=
  match process_detected "long" 1%Z two_wordlists "http://target" one_page
          ["php"; "nginx"] with
  | Return (Some rep) => rep
  | _ => _save_results "long" 1%Z "http://target" [] []
  end.

(** ** Vocabulary of the further properties *)

(** [s] with [f] applied to each character. *)
Fixpoint map_chars (f : ascii -> ascii) (s : string) : string :=
  match s with
  | EmptyString => EmptyString
  | String c s' => String (f c) (map_chars f s')
  end.

(** What the first three steps of the normalisation make of one
    character: letters are lowered, space and underscore become a
    hyphen. *)
Definition fold_char (c : ascii) : ascii :=
  let c := PyStr.lower_char c in
  if Ascii.eqb c " " || Ascii.eqb c "_" then "-"%char else c.

(** A character a normalised name can hold. *)
Definition name_char (c : ascii) : bool :=
  negb (PyStr.is_upper c) && PyStr.is_not " " c && PyStr.is_not "_" c
  && PyStr.is_not "." c.


(** The directory holds no file the pattern accepts. *)
Definition no_wordlist_files (entries : list string) : bool :=
  forallb (fun name =>
             match pattern_match name with
             | Some _ => false
             | None => true
             end)
          (glob_txt entries).


(** Three records: two of 5 bytes, one without a length. *)
Definition sample_results : list record :=
  [<["length" := VInt 5]> (<["url" := VStr "/a"]> ∅);
   <["length" := VInt 5]> (<["url" := VStr "/b"]> ∅);
   <["url" := VStr "/c"]> ∅;
   <["length" := VInt 0]> (<["url" := VStr "/d"]> ∅)].


(** ** The report's file name *)

(** [url.replace("://", "_").replace("/", "_").replace(":", "_")] *)
Definition safe_url (url : string) : string :=
  PyStr.replace ":" "_" (PyStr.replace "/" "_" (PyStr.replace "://" "_" url)).

(** The name of the file [_save_results] writes. *)
Definition output_file (url : string) : string :=
  "intervention_results_" ++ safe_url url ++ ".json".

(** ** [Intervention.run] *)

Section Run.

Variable mode : string.
Variable occurrence : Z.
Variable tech_to_dict : tech_map.
Variable nuclei_templates_path : string.
Variable fs_exists : string -> bool.

(** How, for each URL, the ffuf runs and the nuclei run end. *)
Variable ffuf : string -> string -> string -> proc_outcome ffuf_file.
Variable nuclei : string -> proc_outcome nuclei_output.

(** The loop over the URLs; the result lists the reports saved. *)
Fixpoint run (urls : list string) : py_result (list report) :=
  match urls with
  | [] => Return []
  | url :: urls' =>
      saved ← process_url mode occurrence tech_to_dict url (ffuf url)
                nuclei_templates_path fs_exists (nuclei url);
      later ← run urls';
      Return (match saved with Some rep => rep :: later | None => later end)
  end.

End Run.

(** ** The URL arguments of [main] *)

(** [c.isspace()] restricted to ASCII: tab to carriage return, the
    four separators 28 to 31, and the space. *)
Definition is_space (c : ascii) : bool :=
  let n := N_of_ascii c in
  ((9 <=? n)%N && (n <=? 13)%N) || ((28 <=? n)%N && (n <=? 32)%N).

(** [s.lstrip()], [s.rstrip()] and [s.strip()] without argument. *)
Fixpoint lstrip_space (s : string) : string :=
  match s with
  | EmptyString => EmptyString
  | String a s' => if is_space a then lstrip_space s' else s
  end.






(** ** [ensure_repositories] *)

(** A path as pathlib holds it: whether it starts at the root, and its
    components. *)
Record path : Type := {
  rooted : bool;
  parts : list string
}.

#[global] Instance path_eq_dec : EqDecision path.
Proof. solve_decision. Defined.

(** [p.parent], [p.name] and [p / c] *)
Definition path_parent (p : path) : path :=
  {| rooted := rooted p; parts := List.removelast (parts p) |}.

Definition path_last (p : path) : string := List.last (parts p) "".

Definition path_child (p : path) (c : string) : path :=
  {| rooted := rooted p; parts := parts p ++ [c] |}.

(** What the function does to the file system and asks of git. *)
Inductive action : Type :=
  | Mkdir (p : path)
  | Rmtree (p : path)
  | GitClone (repo : string) (target : path).

#[global] Instance action_eq_dec : EqDecision action.
Proof. solve_decision. Defined.

(** How [subprocess.run(["git", "clone", ...], check=True)] ends. *)
Inductive clone_outcome : Type :=
  | CloneOk
  | CalledProcessError
  | GitNotFound.

(** What the file system answers at each test of the function, in the
    order of the tests, and how each clone ends. *)
Record repo_world : Type := {
  dict_exists : bool;
  dict_has_txt : bool;
  dict_parent_exists : bool;
  one_list_exists : bool;
  dict_clone : clone_outcome;
  nuclei_exists : bool;
  nuclei_has_yaml : bool;
  nuclei_parent_exists : bool;
  nuclei_still_exists : bool;
  nuclei_clone : clone_outcome
}.

Definition one_list_repo : string := "https://github.com/six2dez/OneListForAll.git".
Definition nuclei_repo : string := "https://github.com/projectdiscovery/nuclei-templates.git".

(** Where OneListForAll is cloned for the dictionary directory
    [dict_dir]. *)
Definition one_list_dir (dict_dir : path) : path :=
  let parent_dir := path_parent dict_dir in
  if String.eqb (path_last parent_dir) "OneListForAll" then parent_dir
  else path_child parent_dir "OneListForAll".

(** What either half does before it clones: it creates the parent
    directory when that is missing and removes the target when it is
    there, then asks git for the clone. *)
Definition clone_block (parent_exists target_exists : bool) (parent_dir target : path)
    (repo : string) : list action :=
  ((if parent_exists then [] else [Mkdir parent_dir])
   ++ (if target_exists then [Rmtree target] else [])
   ++ [GitClone repo target])%list.

(** The first half: the dictionaries.  The result is what was done and
    how the half ends; [mkdir] and [rmtree] are taken to succeed. *)
Definition ensure_dictionaries (dict_dir : path) (w : repo_world)
    : list action * py_result unit :=
  if dict_exists w && dict_has_txt w then ([], Return tt)
  else
    (clone_block (dict_parent_exists w) (one_list_exists w)
       (path_parent dict_dir) (one_list_dir dict_dir) one_list_repo,
     match dict_clone w with
     | CloneOk => Return tt
     | CalledProcessError => SysExit 1
     | GitNotFound => SysExit 1
     end).

(** The second half: the nuclei templates. *)
Definition ensure_templates (nuclei_dir : path) (w : repo_world)
    : list action * py_result unit :=
  if nuclei_exists w && nuclei_has_yaml w then ([], Return tt)
  else
    (clone_block (nuclei_parent_exists w) (nuclei_still_exists w)
       (path_parent nuclei_dir) nuclei_dir nuclei_repo,
     match nuclei_clone w with
     | CloneOk => Return tt
     | CalledProcessError => SysExit 1
     | GitNotFound => SysExit 1
     end).

Definition ensure_repositories (dict_dir nuclei_dir : path) (w : repo_world)
    : list action * py_result unit :=
  let '(done, r) := ensure_dictionaries dict_dir w in
  match r with
  | Return _ =>
      let '(done', r') := ensure_templates nuclei_dir w in
      ((done ++ done')%list, r')
  | _ => (done, r)
  end.

(** Every [rmtree] of a trace is followed at once by a clone into the
    directory removed. *)
Fixpoint rmtree_then_clone (trace : list action) : bool :=
  match trace with
  | [] => true
  | Rmtree p :: rest =>
      match rest with
      | GitClone _ target :: _ => bool_decide (p = target) && rmtree_then_clone rest
      | _ => false
      end
  | _ :: rest => rmtree_then_clone rest
  end.

(** The clones a trace asks for. *)
Definition clones (trace : list action) : list (string * path) :=
  omap (fun a => match a with GitClone repo target => Some (repo, target) | _ => None end)
       trace.

(** * Properties *)

(** ** String primitives *)

Section PyStrFacts.

Import PyStr.

Lemma lower_char_not_upper (c : ascii) : is_upper (lower_char c) = false.
Proof. destruct c as [[] [] [] [] [] [] [] []]; reflexivity. Qed.

Lemma lower_no_upper (s : string) :
  all_chars (fun c => negb (is_upper c)) (lower s) = true.
Proof.
  induction s as [|c s IH]; simpl; [reflexivity|].
  rewrite lower_char_not_upper, IH. reflexivity.
Qed.

Lemma lower_fixed (s : string) :
  all_chars (fun c => negb (is_upper c)) s = true -> lower s = s.
Proof.
  induction s as [|c s IH]; simpl; [reflexivity|].
  intros [Hc Hs]%andb_true_iff. rewrite (IH Hs). unfold lower_char.
  apply negb_true_iff in Hc. rewrite Hc. reflexivity.
Qed.

Lemma all_chars_app (P : ascii -> bool) (a b : string) :
  all_chars P (a ++ b) = all_chars P a && all_chars P b.
Proof.
  induction a as [|c a IH]; simpl; [reflexivity|].
  rewrite IH, andb_assoc. reflexivity.
Qed.

Lemma all_chars_replace_go (P : ascii -> bool) (old new : string) (s : string) :
  all_chars P new = true ->
  forall skip, all_chars P s = true -> all_chars P (replace_go old new skip s) = true.
Proof.
  intros Hnew. induction s as [|c s IH]; intros skip; [reflexivity|].
  cbn [replace_go all_chars]. intros [Hc Hs]%andb_true_iff.
  destruct skip as [|k]; [|apply IH, Hs].
  destruct (startswith old (String c s)).
  - rewrite all_chars_app, Hnew. apply IH, Hs.
  - cbn [all_chars]. rewrite Hc. apply IH, Hs.
Qed.

Lemma all_chars_replace (P : ascii -> bool) (old new s : string) :
  all_chars P s = true -> all_chars P new = true ->
  all_chars P (replace old new s) = true.
Proof. intros Hs Hnew. apply all_chars_replace_go; assumption. Qed.

(** After [replace(c, new)] with [c] absent from [new], no [c] is left. *)
Lemma replace_char_excluded (c : ascii) (new s : string) :
  all_chars (is_not c) new = true ->
  all_chars (is_not c) (replace (String c "") new s) = true.
Proof.
  intros Hnew. unfold replace. induction s as [|a s IH]; [reflexivity|].
  cbn [replace_go startswith String.length Nat.sub].
  destruct (Ascii.eqb c a) eqn:E; cbn [andb].
  - destruct s; rewrite all_chars_app, Hnew; exact IH.
  - cbn [all_chars]. rewrite IH, andb_true_r. unfold is_not.
    rewrite Ascii.eqb_sym, E. reflexivity.
Qed.

Lemma all_chars_lstrip (P : ascii -> bool) (c : ascii) (s : string) :
  all_chars P s = true -> all_chars P (lstrip c s) = true.
Proof.
  induction s as [|a s IH]; simpl; [reflexivity|].
  intros H. destruct (Ascii.eqb a c); [|exact H].
  apply andb_true_iff in H as [_ H]. apply IH, H.
Qed.

Lemma all_chars_rstrip (P : ascii -> bool) (c : ascii) (s : string) :
  all_chars P s = true -> all_chars P (rstrip c s) = true.
Proof.
  induction s as [|a s IH]; simpl; [reflexivity|].
  intros [Ha Hs]%andb_true_iff. specialize (IH Hs).
  destruct (rstrip c s) as [|b r].
  - destruct (Ascii.eqb a c); simpl; [reflexivity|]. rewrite Ha. reflexivity.
  - cbn [all_chars] in *. rewrite Ha, IH. reflexivity.
Qed.

Lemma all_chars_strip (P : ascii -> bool) (c : ascii) (s : string) :
  all_chars P s = true -> all_chars P (strip c s) = true.
Proof. intros H. apply all_chars_rstrip, all_chars_lstrip, H. Qed.

(** Where [old] does not occur, [replace] changes nothing. *)
Lemma replace_absent (old new s : string) :
  contains old s = false -> replace old new s = s.
Proof.
  unfold replace. induction s as [|c s IH]; [reflexivity|].
  cbn [contains replace_go]. intros [H1 H2]%orb_false_iff.
  rewrite H1, (IH H2). reflexivity.
Qed.

Lemma startswith_app_l (p q s : string) :
  startswith (p ++ q) s = true -> startswith p s = true.
Proof.
  revert s. induction p as [|a p IH]; intros s; simpl; [reflexivity|].
  destruct s as [|b s]; [discriminate|].
  intros [H1 H2]%andb_true_iff. rewrite H1. apply IH, H2.
Qed.

Lemma contains_app_l (p q s : string) :
  contains (p ++ q) s = false \/ contains p s = true.
Proof.
  induction s as [|c s IH]; cbn [contains].
  - destruct (startswith (p ++ q) "") eqn:E; [right|left; reflexivity].
    rewrite (startswith_app_l _ _ _ E). reflexivity.
  - destruct (startswith (p ++ q) (String c s)) eqn:E.
    + right. rewrite (startswith_app_l _ _ _ E). reflexivity.
    + destruct IH as [IH|IH]; [left; rewrite IH; reflexivity|].
      right. rewrite IH. apply orb_true_r.
Qed.

Lemma contains_tail (a : ascii) (p s : string) :
  contains p s = false -> contains (String a p) s = false.
Proof.
  induction s as [|c s IH]; cbn [contains startswith]; [reflexivity|].
  intros [H1 H2]%orb_false_iff. rewrite (IH H2), orb_false_r.
  destruct (Ascii.eqb a c); [|reflexivity]. cbn [andb].
  destruct (startswith p s) eqn:E; [|reflexivity].
  exfalso. clear -E H2. destruct s as [|d s]; cbn [contains] in H2.
  - rewrite E in H2. discriminate.
  - rewrite E in H2. discriminate.
Qed.

Lemma contains_prefix_absent (p q s : string) :
  contains p s = false -> contains (p ++ q) s = false.
Proof.
  intros H. destruct (contains_app_l p q s) as [E|E]; [exact E|congruence].
Qed.

Lemma char_absent (c : ascii) (s : string) :
  all_chars (is_not c) s = true -> contains (String c "") s = false.
Proof.
  induction s as [|a s IH]; [reflexivity|].
  cbn [all_chars contains startswith]. intros [Ha Hs]%andb_true_iff.
  rewrite (IH Hs). unfold is_not in Ha. apply negb_true_iff in Ha.
  rewrite Ascii.eqb_sym, Ha. reflexivity.
Qed.

Lemma rstrip_idem (c : ascii) (s : string) : rstrip c (rstrip c s) = rstrip c s.
Proof.
  induction s as [|a s IH]; [reflexivity|]. cbn [rstrip].
  destruct (rstrip c s) as [|b r] eqn:E.
  - destruct (Ascii.eqb a c) eqn:Ea; [reflexivity|]. cbn [rstrip]. rewrite Ea. reflexivity.
  - cbn [rstrip] in *. rewrite IH. reflexivity.
Qed.

Lemma lstrip_rstrip (c : ascii) (s : string) :
  lstrip c (rstrip c (lstrip c s)) = rstrip c (lstrip c s).
Proof.
  induction s as [|a s IH]; [reflexivity|]. cbn [lstrip].
  destruct (Ascii.eqb a c) eqn:Ea; [exact IH|].
  cbn [rstrip]. destruct (rstrip c s); rewrite ?Ea; cbn [lstrip]; rewrite Ea; reflexivity.
Qed.

Lemma strip_idem (c : ascii) (s : string) : strip c (strip c s) = strip c s.
Proof. unfold strip. rewrite lstrip_rstrip. apply rstrip_idem. Qed.

End PyStrFacts.

(** ** Normalisation of technology names *)

Example normalize_apache : _normalize_tech_name "Apache Tomcat" = "apache-tomcat".
Proof. reflexivity. Qed.

Example normalize_aspnet : _normalize_tech_name "ASP.NET_Core" = "aspnet-core".
Proof. reflexivity. Qed.

Example normalize_tech_detect : _normalize_tech_name "nginx-detect" = "nginx".
Proof. reflexivity. Qed.

(** Removing an inner "detect" can bring the two halves of another one
    together; the pass over the string is not repeated. *)
Example normalize_nested : _normalize_tech_name "dedetecttect" = "detect".
Proof. reflexivity. Qed.

Lemma normalized_no_upper (s : string) :
  PyStr.all_chars (fun c => negb (PyStr.is_upper c)) (_normalize_tech_name s) = true.
Proof.
  unfold _normalize_tech_name. apply all_chars_strip.
  do 7 (apply all_chars_replace; [|reflexivity]). apply lower_no_upper.
Qed.

Lemma normalized_no_space (s : string) :
  PyStr.all_chars (PyStr.is_not " ") (_normalize_tech_name s) = true.
Proof.
  unfold _normalize_tech_name. apply all_chars_strip.
  do 6 (apply all_chars_replace; [|reflexivity]).
  apply replace_char_excluded. reflexivity.
Qed.

Lemma normalized_no_underscore (s : string) :
  PyStr.all_chars (PyStr.is_not "_") (_normalize_tech_name s) = true.
Proof.
  unfold _normalize_tech_name. apply all_chars_strip.
  do 5 (apply all_chars_replace; [|reflexivity]).
  apply replace_char_excluded. reflexivity.
Qed.

Lemma normalized_no_period (s : string) :
  PyStr.all_chars (PyStr.is_not ".") (_normalize_tech_name s) = true.
Proof.
  unfold _normalize_tech_name. apply all_chars_strip.
  do 4 (apply all_chars_replace; [|reflexivity]).
  apply replace_char_excluded. reflexivity.
Qed.

Lemma normalized_stripped (s : string) :
  PyStr.strip "-" (_normalize_tech_name s) = _normalize_tech_name s.
Proof. unfold _normalize_tech_name. apply strip_idem. Qed.

(** A string in normal form that has no "detect" left is a fixed point. *)
Lemma normalize_fixed (t : string) :
  PyStr.all_chars (fun c => negb (PyStr.is_upper c)) t = true ->
  PyStr.all_chars (PyStr.is_not " ") t = true ->
  PyStr.all_chars (PyStr.is_not "_") t = true ->
  PyStr.all_chars (PyStr.is_not ".") t = true ->
  PyStr.contains "detect" t = false ->
  PyStr.strip "-" t = t ->
  _normalize_tech_name t = t.
Proof.
  intros Hup Hsp Hun Hdot Hdet Hstrip. unfold _normalize_tech_name.
  rewrite (lower_fixed _ Hup).
  rewrite (replace_absent " " "-" t (char_absent _ _ Hsp)).
  rewrite (replace_absent "_" "-" t (char_absent _ _ Hun)).
  rewrite (replace_absent "." "" t (char_absent _ _ Hdot)).
  rewrite (replace_absent "detect" "" t Hdet).
  rewrite (replace_absent "detection" "" t (contains_prefix_absent "detect" "ion" t Hdet)).
  rewrite (replace_absent "-detect" "" t (contains_tail "-" "detect" t Hdet)).
  rewrite (replace_absent "-detection" "" t
             (contains_tail "-" "detection" t
                (contains_prefix_absent "detect" "ion" t Hdet))).
  exact Hstrip.
Qed.

(** C9, as stated, fails: normalising "dedetecttect" gives "detect",
    and normalising that gives the empty string. *)
Lemma normalize_not_idempotent :
  ~ (forall s : string,
       _normalize_tech_name (_normalize_tech_name s) = _normalize_tech_name s).
Proof. intros H. specialize (H "dedetecttect"). vm_compute in H. discriminate H. Qed.

(** C9 (amended): normalisation is idempotent on every input whose
    normal form contains no occurrence of "detect"; for such a name the
    second normalisation done by the wordlist lookup changes nothing. *)
Theorem normalize_idempotent_without_detect (s : string) :
  PyStr.contains "detect" (_normalize_tech_name s) = false ->
  _normalize_tech_name (_normalize_tech_name s) = _normalize_tech_name s.
Proof.
  intros Hdet. apply normalize_fixed.
  - apply normalized_no_upper.
  - apply normalized_no_space.
  - apply normalized_no_underscore.
  - apply normalized_no_period.
  - exact Hdet.
  - apply normalized_stripped.
Qed.

Lemma normalize_idempotent_witness :
  PyStr.contains "detect" (_normalize_tech_name "Tech_Detect.X") = false
  /\ _normalize_tech_name (_normalize_tech_name "Tech_Detect.X")
     = _normalize_tech_name "Tech_Detect.X".
Proof.
  split; [reflexivity|].
  apply (normalize_idempotent_without_detect "Tech_Detect.X"). reflexivity.
Defined.

(** ** The occurrence filter *)

Lemma count_lengths_from (results : list record) (k : value) :
  forall counts : gmap value nat,
    default 0%nat
      (foldl (fun length_counts result =>
                let length := result_length result in
                <[length := S (default 0%nat (length_counts !! length))]> length_counts)
             counts results !! k)
    = (default 0%nat (counts !! k)
       + length (filter (fun r' => result_length r' = k) results))%nat.
Proof.
  induction results as [|r results IH]; intros counts; cbn [foldl].
  - cbn. lia.
  - rewrite IH. cbn zeta. destruct (decide (result_length r = k)) as [E|E].
    + rewrite filter_cons_True by exact E. subst k.
      rewrite lookup_insert_eq. cbn. lia.
    + rewrite filter_cons_False by exact E.
      rewrite lookup_insert_ne by exact E. reflexivity.
Qed.

Lemma count_lengths_lookup (results : list record) (r : record) :
  default 0%nat (count_lengths results !! result_length r) = occurrences results r.
Proof.
  unfold count_lengths, occurrences. rewrite count_lengths_from.
  rewrite lookup_empty. reflexivity.
Qed.

(** The filter against an arbitrary counter that agrees with [count]. *)
Lemma omap_filter_map {A B : Type} (keep : A -> bool) (g : A -> B) (l : list A) :
  omap (fun a => if keep a then Some (g a) else None) l
  = map g (filter (fun a => keep a = true) l).
Proof.
  induction l as [|a l IH]; [reflexivity|].
  cbn [omap list_omap]. destruct (keep a) eqn:E.
  - rewrite filter_cons_True by exact E. cbn [map]. f_equal. exact IH.
  - rewrite filter_cons_False by (rewrite E; discriminate). exact IH.
Qed.

Lemma filter_equiv_in {A : Type} (P Q : A -> Prop)
    `{!forall x, Decision (P x)} `{!forall x, Decision (Q x)} (l : list A) :
  (forall x, x ∈ l -> P x <-> Q x) -> filter P l = filter Q l.
Proof.
  induction l as [|a l IH]; intros Hext; [reflexivity|].
  assert (Hl : forall x, x ∈ l -> P x <-> Q x)
    by (intros x Hx; apply Hext; right; exact Hx).
  destruct (decide (P a)) as [Pa|Pa].
  - rewrite !filter_cons_True; [|apply Hext; [left|exact Pa]|exact Pa].
    f_equal. apply IH, Hl.
  - rewrite !filter_cons_False; [apply IH, Hl| |exact Pa].
    intros Qa. apply Pa, Hext; [left|exact Qa].
Qed.

(** The two loops amount to one filter by the declarative count. *)
Lemma analyze_results_filter_map (occurrence : Z) (results : list record) :
  analyze_results occurrence results
  = map (with_count results)
        (filter (fun r => (Z.of_nat (occurrences results r) <= occurrence)%Z) results).
Proof.
  unfold analyze_results. cbn zeta.
  rewrite (list_omap_ext _
    (fun r => if (Z.of_nat (occurrences results r) <=? occurrence)%Z
              then Some (with_count results r) else None) results results).
  - rewrite omap_filter_map. f_equal. apply filter_equiv_in.
    intros r _. apply Z.leb_le.
  - apply Forall2_same_length_lookup. split; [reflexivity|].
    intros i x y Hx Hy. assert (x = y) by congruence. subst y.
    rewrite count_lengths_lookup. reflexivity.
Qed.

(** C1: the filter returns, in input order, exactly the records whose
    length is shared by at most [occurrence] records of the input, each
    with [occurrence_count] set to that number; a record is dropped
    exactly when that number exceeds [occurrence]. *)
Theorem analyze_results_spec (occurrence : Z) (results : list record) :
  analyze_results occurrence results
  = map (with_count results)
        (filter (fun r => (Z.of_nat (occurrences results r) <= occurrence)%Z) results)
  /\ (forall r, r ∈ results ->
        (with_count results r ∈ analyze_results occurrence results
         <-> ~ (occurrence < Z.of_nat (occurrences results r))%Z))
  /\ (forall out, out ∈ analyze_results occurrence results ->
        exists r, r ∈ results
                  /\ (Z.of_nat (occurrences results r) <= occurrence)%Z
                  /\ out = with_count results r
                  /\ out !! "occurrence_count"
                     = Some (VInt (Z.of_nat (occurrences results r)))).
Proof.
  pose proof (analyze_results_filter_map occurrence results) as Heq.
  split; [exact Heq|]. split.
  - intros r Hr. rewrite Heq. split.
    + intros Hin. apply list_elem_of_In, in_map_iff in Hin as (r' & Hr' & Hin').
      apply list_elem_of_In, list_elem_of_filter in Hin' as [Hle _].
      assert (Hlen : result_length r' = result_length r).
      { unfold with_count in Hr'. unfold result_length.
        assert (H : (<["occurrence_count" := VInt (Z.of_nat (occurrences results r'))]> r'
                     : record) !! "length"
                    = (<["occurrence_count" := VInt (Z.of_nat (occurrences results r))]> r
                     : record) !! "length") by (rewrite Hr'; reflexivity).
        rewrite !lookup_insert_ne in H by discriminate. rewrite H. reflexivity. }
      unfold occurrences in *. rewrite Hlen in Hle. lia.
    + intros Hle. apply list_elem_of_In, in_map_iff. exists r. split; [reflexivity|].
      apply list_elem_of_In, list_elem_of_filter. split; [lia|exact Hr].
  - intros out Hout. rewrite Heq in Hout.
    apply list_elem_of_In, in_map_iff in Hout as (r & <- & Hin).
    apply list_elem_of_In, list_elem_of_filter in Hin as [Hle Hr].
    exists r. repeat split; try assumption.
    unfold with_count. apply lookup_insert_eq.
Qed.

Lemma analyze_results_spec_witness :
  <["length" := VInt 7]> ∅ ∈ [<["length" := VInt 5]> ∅; <["length" := VInt 5]> ∅;
                              <["length" := VInt 7]> (∅ : record)]
  /\ with_count [<["length" := VInt 5]> ∅; <["length" := VInt 5]> ∅; <["length" := VInt 7]> ∅]
        (<["length" := VInt 7]> ∅)
      ∈ analyze_results 1
          [<["length" := VInt 5]> ∅; <["length" := VInt 5]> ∅; <["length" := VInt 7]> ∅].
Proof.
  assert (Hin : <["length" := VInt 7]> ∅
                ∈ [<["length" := VInt 5]> ∅; <["length" := VInt 5]> ∅;
                    <["length" := VInt 7]> (∅ : record)]) by (right; right; left).
  split; [exact Hin|].
  apply (proj1 (proj2 (analyze_results_spec 1
           [<["length" := VInt 5]> ∅; <["length" := VInt 5]> ∅; <["length" := VInt 7]> ∅]))
           (<["length" := VInt 7]> ∅) Hin).
  vm_compute. intros H. discriminate H.
Defined.


Example analyze_counted_record :
  analyze_results 10 [counted_record]
  = [<["occurrence_count" := VInt 1]> (<["length" := VInt 5]> ∅)].
Proof.
  apply (f_equal (fun x => [x])). apply map_eq. intros k.
  unfold counted_record.
  destruct (decide (k = "occurrence_count")) as [->|Hk].
  - rewrite lookup_insert_eq. reflexivity.
  - change (result_length _) with (VInt 5). cbn.
    rewrite !(lookup_insert_ne _ "occurrence_count") by congruence. reflexivity.
Qed.

(** C10, as stated, fails: the [occurrence_count] an input record
    already has is overwritten, so the output record does not agree with
    it on that field. *)
Lemma analyze_results_overwrites_count :
  ~ (forall occurrence results, keeps_every_field occurrence results).
Proof.
  intros H. destruct (H 10%Z [counted_record]) as (kept & Hsub & Hall).
  rewrite analyze_counted_record in Hall.
  destruct kept as [|r_in kept]; [inversion Hall|].
  apply Forall2_cons in Hall as [Hfield Hrest].
  apply sublist_cons_l in Hsub as (k1 & k2 & E & _).
  destruct k1 as [|x k1]; [|destruct k1; discriminate E].
  cbn in E. injection E as <-.
  specialize (Hfield "occurrence_count" (VInt 99)).
  unfold counted_record in Hfield. rewrite !lookup_insert_eq in Hfield.
  specialize (Hfield eq_refl). discriminate Hfield.
Qed.

Lemma Forall2_map_r_self {A B : Type} (R : A -> B -> Prop) (g : A -> B) (l : list A) :
  (forall a, R a (g a)) -> Forall2 R l (map g l).
Proof. intros H. induction l; cbn; constructor; auto. Qed.

(** C10 (amended): the output lines up, in order, with a subsequence
    of the input, and each output record is its input record with
    [occurrence_count] set, which adds the field or replaces the value
    it had; every other field is as in the input record and no other
    field appears. *)
Theorem analyze_results_frame (occurrence : Z) (results : list record) :
  exists kept : list record,
    kept `sublist_of` results
    /\ Forall2 (fun r_in r_out : record =>
                  (exists n : Z, r_out = <["occurrence_count" := VInt n]> r_in)
                  /\ delete "occurrence_count" r_out = delete "occurrence_count" r_in)
               kept (analyze_results occurrence results).
Proof.
  exists (filter (fun r => (Z.of_nat (occurrences results r) <= occurrence)%Z) results).
  split; [apply sublist_filter|].
  rewrite analyze_results_filter_map.
  apply Forall2_map_r_self. intros r. unfold with_count. split.
  - eexists. reflexivity.
  - apply delete_insert_eq.
Qed.

(** ** The file-name pattern *)

#[local] Arguments String.append !s1 s2 / : simpl nomatch.

Lemma string_length_app (a b : string) :
  String.length (a ++ b) = (String.length a + String.length b)%nat.
Proof. induction a as [|c a IH]; cbn; [reflexivity|]. rewrite IH. reflexivity. Qed.

Lemma last_char_app (a b : string) : b <> "" -> last_char (a ++ b) = last_char b.
Proof.
  intros Hb. induction a as [|c a IH]; cbn; [reflexivity|]. rewrite IH.
  destruct b as [|d b]; [congruence|]. cbn. destruct (last_char b); reflexivity.
Qed.

Lemma endswith_last_char (suf s : string) :
  suf <> "" -> endswith suf s = true -> last_char s = last_char suf.
Proof.
  intros Hsuf. induction s as [|c s IH]; cbn [endswith].
  - rewrite orb_false_r. intros E%String.eqb_eq. subst suf. reflexivity.
  - intros [E%String.eqb_eq | E]%orb_true_iff; [subst suf; reflexivity|].
    cbn [last_char]. rewrite (IH E).
    destruct suf as [|d suf]; [congruence|]. cbn. destruct (last_char suf); reflexivity.
Qed.

Lemma suffix_type_inv (rest dict_type : string) :
  suffix_type rest = Some dict_type ->
  (dict_type = "short" \/ dict_type = "long")
  /\ (rest = "_" ++ dict_type ++ ".txt"
      \/ rest = "_" ++ dict_type ++ ".txt" ++ String newline "").
Proof.
  unfold suffix_type.
  destruct (String.eqb_spec rest "_short.txt") as [->|_];
    [intros [= <-]; split; [left|left]; reflexivity|].
  destruct (String.eqb_spec rest (String.append "_short.txt" (String newline ""))) as [->|_];
    [intros [= <-]; split; [left|right]; reflexivity|].
  destruct (String.eqb_spec rest "_long.txt") as [->|_];
    [intros [= <-]; split; [right|left]; reflexivity|].
  destruct (String.eqb_spec rest (String.append "_long.txt" (String newline ""))) as [->|_];
    [intros [= <-]; split; [right|right]; reflexivity|].
  discriminate.
Qed.

Lemma suffix_type_length (rest : string) :
  11 < String.length rest -> suffix_type rest = None.
Proof.
  intros Hlen. destruct (suffix_type rest) as [ty|] eqn:E; [|reflexivity].
  apply suffix_type_inv in E as [[-> | ->] [-> | ->]]; vm_compute in Hlen; lia.
Qed.

(** A longer tail than the pattern's is not taken for it: the lazy
    group cannot stop early. *)
Lemma suffix_type_inner (c : ascii) (t dict_type : string) :
  dict_type = "short" \/ dict_type = "long" ->
  suffix_type (String c t ++ "_" ++ dict_type ++ ".txt") = None.
Proof.
  intros Hty.
  destruct t as [|a [|b t]].
  - destruct Hty as [-> | ->]; unfold suffix_type; cbn;
      destruct (Ascii.eqb c "_"); reflexivity.
  - destruct Hty as [-> | ->]; unfold suffix_type; cbn;
      destruct (Ascii.eqb c "_"); cbn; try reflexivity;
      destruct (Ascii.eqb a "s"); cbn; try reflexivity;
      destruct (Ascii.eqb a "l"); cbn; reflexivity.
  - apply suffix_type_length. cbn [String.append String.length].
    rewrite string_length_app. destruct Hty as [-> | ->]; cbn; lia.
Qed.

Lemma pattern_match_sound (name tech_name dict_type : string) :
  pattern_match name = Some (tech_name, dict_type) ->
  exists rest,
    name = tech_name ++ rest
    /\ suffix_type rest = Some dict_type
    /\ tech_name <> ""
    /\ PyStr.all_chars (PyStr.is_not newline) tech_name = true.
Proof.
  revert tech_name. induction name as [|c name IH]; intros tech_name; [discriminate|].
  cbn [pattern_match]. destruct (Ascii.eqb c newline) eqn:Ec; [discriminate|].
  destruct (suffix_type name) as [ty|] eqn:Es.
  - intros [= <- <-]. exists name. repeat split; [exact Es|discriminate|].
    cbn. unfold PyStr.is_not. rewrite Ec. reflexivity.
  - destruct (pattern_match name) as [[t ty]|]; [|discriminate].
    intros [= <- <-]. destruct (IH t eq_refl) as (rest & -> & Hs & _ & Hall).
    exists rest. repeat split; [exact Hs|discriminate|].
    cbn. unfold PyStr.is_not at 1. rewrite Ec, Hall. reflexivity.
Qed.

Lemma pattern_match_complete (tech_name dict_type : string) :
  dict_type = "short" \/ dict_type = "long" ->
  tech_name <> "" ->
  PyStr.all_chars (PyStr.is_not newline) tech_name = true ->
  pattern_match (tech_name ++ "_" ++ dict_type ++ ".txt") = Some (tech_name, dict_type).
Proof.
  intros Hty. induction tech_name as [|c t IH]; intros Hne Hall; [congruence|].
  cbn [PyStr.all_chars] in Hall. apply andb_true_iff in Hall as [Hc Hall].
  unfold PyStr.is_not in Hc. apply negb_true_iff in Hc.
  destruct t as [|a t].
  - destruct Hty as [-> | ->]; cbn; rewrite Hc; reflexivity.
  - change (pattern_match (String c (String a t ++ "_" ++ dict_type ++ ".txt"))
            = Some (String c (String a t), dict_type)).
    cbn [pattern_match]. rewrite Hc.
    rewrite (suffix_type_inner a t dict_type Hty).
    rewrite IH; [reflexivity|discriminate|exact Hall].
Qed.


(** Among the names the glob yields, the pattern accepts exactly those
    that follow the convention, and splits them as the convention does. *)
Lemma pattern_match_convention (name tech_name dict_type : string) :
  endswith ".txt" name = true ->
  pattern_match name = Some (tech_name, dict_type)
  <-> follows_convention name tech_name dict_type.
Proof.
  intros Hglob. split.
  - intros (rest & -> & Hs & Hne & Hall)%pattern_match_sound.
    apply suffix_type_inv in Hs as [Hty [-> | ->]].
    + repeat split; assumption.
    + exfalso. apply (endswith_last_char ".txt") in Hglob; [|discriminate].
      rewrite last_char_app in Hglob by (destruct Hty as [-> | ->]; discriminate).
      destruct Hty as [-> | ->]; vm_compute in Hglob; discriminate.
  - intros (-> & Hty & Hne & Hall). apply pattern_match_complete; assumption.
Qed.

Lemma convention_endswith (name tech_name dict_type : string) :
  follows_convention name tech_name dict_type -> endswith ".txt" name = true.
Proof.
  intros (-> & Hty & _ & _). induction tech_name as [|c t IH].
  - destruct Hty as [-> | ->]; reflexivity.
  - change (endswith ".txt" (String c (t ++ "_" ++ dict_type ++ ".txt")) = true).
    cbn [endswith]. rewrite IH. apply orb_true_r.
Qed.

(** ** Insertion-ordered dictionaries *)

Lemma dict_get_set_eq {V} (k : string) (v : V) (d : Dict.t V) :
  Dict.get k (Dict.set k v d) = Some v.
Proof.
  induction d as [|[k' v'] d IH]; cbn.
  - rewrite String.eqb_refl. reflexivity.
  - destruct (String.eqb_spec k k') as [->|Hne]; cbn.
    + rewrite String.eqb_refl. reflexivity.
    + destruct (String.eqb_spec k k'); [congruence|exact IH].
Qed.

Lemma dict_get_set_ne {V} (k k' : string) (v : V) (d : Dict.t V) :
  k <> k' -> Dict.get k' (Dict.set k v d) = Dict.get k' d.
Proof.
  intros Hne. induction d as [|[k0 v0] d IH]; cbn.
  - destruct (String.eqb_spec k' k); [congruence|reflexivity].
  - destruct (String.eqb_spec k k0) as [->|Hk]; cbn.
    + destruct (String.eqb_spec k' k0); [congruence|reflexivity].
    + rewrite IH. reflexivity.
Qed.

Lemma dict_get_elem {V} (k : string) (v : V) (d : Dict.t V) :
  Dict.get k d = Some v -> (k, v) ∈ d.
Proof.
  induction d as [|[k' v'] d IH]; cbn; [discriminate|].
  destruct (String.eqb_spec k k') as [->|Hne].
  - intros [= ->]. left.
  - intros H. right. apply IH, H.
Qed.

Lemma dict_get_keys {V} (k : string) (d : Dict.t V) :
  is_Some (Dict.get k d) <-> k ∈ Dict.keys d.
Proof.
  unfold Dict.keys. induction d as [|[k' v'] d IH]; cbn.
  - split; [intros [? [=]]|intros H; inversion H].
  - destruct (String.eqb_spec k k') as [->|Hne].
    + split; [intros _; left|intros _; eexists; reflexivity].
    + rewrite IH. split; [intros H; right; exact H|].
      intros H. inversion H; subst; [congruence|assumption].
Qed.

(** ** Loading the dictionary directory *)

Lemma mode_condition (dict_type mode : string) :
  String.eqb dict_type mode
  || (String.eqb dict_type "long" && String.eqb mode "long")
  = String.eqb dict_type mode.
Proof.
  destruct (String.eqb_spec dict_type mode) as [E|E]; [reflexivity|]. cbn.
  destruct (String.eqb_spec dict_type "long") as [E1|E1]; [|reflexivity].
  destruct (String.eqb_spec mode "long") as [E2|E2]; [congruence|reflexivity].
Qed.

(** What one file does to the entry of each key. *)
Lemma load_file_get (mode dict_path : string) (d : tech_map) (name k : string) :
  Dict.get k (load_file mode dict_path d name)
  = match pattern_match name with
    | Some (tech_name, dict_type) =>
        if String.eqb k tech_name then
          let slot := default ∅ (Dict.get tech_name d) in
          Some (if String.eqb dict_type mode
                then <[dict_type := file_path dict_path name]> slot
                else slot)
        else Dict.get k d
    | None => Dict.get k d
    end.
Proof.
  unfold load_file. destruct (pattern_match name) as [[tech ty]|]; [|reflexivity].
  rewrite mode_condition. cbn zeta.
  set (d1 := if Dict.mem tech d then d else Dict.set tech ∅ d).
  assert (H1 : Dict.get tech d1 = Some (default ∅ (Dict.get tech d))).
  { unfold d1, Dict.mem. destruct (Dict.get tech d) as [e|] eqn:E; [exact E|].
    apply dict_get_set_eq. }
  assert (H2 : forall k, k <> tech -> Dict.get k d1 = Dict.get k d).
  { intros k0 Hk. unfold d1. destruct (Dict.mem tech d); [reflexivity|].
    apply dict_get_set_ne. congruence. }
  destruct (String.eqb_spec k tech) as [->|Hk].
  - destruct (String.eqb ty mode).
    + rewrite dict_get_set_eq, H1. reflexivity.
    + exact H1.
  - destruct (String.eqb ty mode).
    + rewrite dict_get_set_ne by congruence. apply H2, Hk.
    + apply H2, Hk.
Qed.

Lemma load_get_is_Some (mode dict_path : string) (files : list string) (k : string) :
  is_Some (Dict.get k (foldl (load_file mode dict_path) [] files))
  <-> exists name dict_type, name ∈ files /\ pattern_match name = Some (k, dict_type).
Proof.
  induction files as [|x files IH] using rev_ind.
  - cbn. split; [intros [? [=]]|intros (n & t & H & _); inversion H].
  - rewrite foldl_snoc, load_file_get.
    destruct (pattern_match x) as [[tech ty]|] eqn:Ex.
    + destruct (String.eqb_spec k tech) as [->|Hk].
      * split; [|intros _; eexists; reflexivity].
        intros _. exists x, ty. split; [apply elem_of_app; right; left|exact Ex].
      * rewrite IH. split.
        -- intros (n & t & Hn & Hp). exists n, t.
           split; [apply elem_of_app; left; exact Hn|exact Hp].
        -- intros (n & t & Hn & Hp). apply elem_of_app in Hn as [Hn|Hn].
           ++ exists n, t. split; assumption.
           ++ apply list_elem_of_singleton in Hn. subst n. congruence.
    + rewrite IH. split.
      * intros (n & t & Hn & Hp). exists n, t.
        split; [apply elem_of_app; left; exact Hn|exact Hp].
      * intros (n & t & Hn & Hp). apply elem_of_app in Hn as [Hn|Hn].
        -- exists n, t. split; assumption.
        -- apply list_elem_of_singleton in Hn. subst n. congruence.
Qed.

Lemma load_entry_paths (mode dict_path : string) (files : list string) :
  forall (k : string) (e : entry) (dict_type p : string),
    Dict.get k (foldl (load_file mode dict_path) [] files) = Some e ->
    e !! dict_type = Some p ->
    dict_type = mode
    /\ exists name, name ∈ files
                    /\ pattern_match name = Some (k, dict_type)
                    /\ p = file_path dict_path name.
Proof.
  induction files as [|x files IH] using rev_ind; intros k e ty p; [discriminate|].
  rewrite foldl_snoc, load_file_get.
  assert (Hold : forall e0, Dict.get k (foldl (load_file mode dict_path) [] files) = Some e0 ->
                 e0 !! ty = Some p ->
                 ty = mode /\ exists name, name ∈ (files ++ [x])%list
                    /\ pattern_match name = Some (k, ty)
                    /\ p = file_path dict_path name).
  { intros e0 H0 Hp. destruct (IH k e0 ty p H0 Hp) as (Hm & n & Hn & Hpm & Hpath).
    split; [exact Hm|]. exists n. split; [apply elem_of_app; left; exact Hn|].
    split; assumption. }
  destruct (pattern_match x) as [[tech ty']|] eqn:Ex; [|apply Hold].
  destruct (String.eqb_spec k tech) as [->|Hk]; [|apply Hold].
  cbn zeta. intros [= <-].
  destruct (Dict.get tech (foldl (load_file mode dict_path) [] files)) as [e0|] eqn:E0;
    cbn [default].
  - destruct (String.eqb_spec ty' mode) as [->|Hm]; [|apply (Hold e0 eq_refl)].
    destruct (decide (mode = ty)) as [<-|Hty].
    + rewrite lookup_insert_eq. intros [= <-]. split; [reflexivity|].
      exists x. split; [apply elem_of_app; right; left|]. split; [exact Ex|reflexivity].
    + rewrite lookup_insert_ne by exact Hty. apply (Hold e0 eq_refl).
  - destruct (String.eqb_spec ty' mode) as [->|Hm]; [|rewrite lookup_empty; discriminate].
    destruct (decide (mode = ty)) as [<-|Hty].
    + rewrite lookup_insert_eq. intros [= <-]. split; [reflexivity|].
      exists x. split; [apply elem_of_app; right; left|]. split; [exact Ex|reflexivity].
    + rewrite lookup_insert_ne by exact Hty. rewrite lookup_empty. discriminate.
Qed.

Lemma load_entry_has_mode (mode dict_path : string) (files : list string) (k name : string) :
  name ∈ files ->
  pattern_match name = Some (k, mode) ->
  exists e, Dict.get k (foldl (load_file mode dict_path) [] files) = Some e
            /\ is_Some (e !! mode).
Proof.
  induction files as [|x files IH] using rev_ind; intros Hin Hpm; [inversion Hin|].
  rewrite foldl_snoc, load_file_get.
  apply elem_of_app in Hin as [Hin|Hin].
  - destruct (IH Hin Hpm) as (e & He & Hsome).
    destruct (pattern_match x) as [[tech ty]|]; [|exists e; split; assumption].
    destruct (String.eqb_spec k tech) as [->|Hk]; [|exists e; split; assumption].
    rewrite He. cbn. eexists. split; [reflexivity|].
    destruct (String.eqb_spec ty mode) as [->|Hm]; [|exact Hsome].
    rewrite lookup_insert_eq. eexists. reflexivity.
  - apply list_elem_of_singleton in Hin. subst x. rewrite Hpm.
    rewrite !String.eqb_refl. cbn. eexists. split; [reflexivity|].
    rewrite lookup_insert_eq. eexists. reflexivity.
Qed.

Lemma load_technologies_returns (mode dict_path : string) (entries : list string) :
  _load_technologies mode dict_path (Some entries)
  = Return (load_directory mode dict_path entries).
Proof. reflexivity. Qed.

Lemma load_technologies_no_directory (mode dict_path : string) :
  _load_technologies mode dict_path None = SysExit 1.
Proof. reflexivity. Qed.

Lemma elem_of_glob_txt (entries : list string) (name : string) :
  name ∈ glob_txt entries <-> name ∈ entries /\ endswith ".txt" name = true.
Proof. unfold glob_txt. rewrite list_elem_of_filter. tauto. Qed.

(** A file the pattern rejects leaves the mapping as it was. *)
Lemma load_file_unmatched (mode dict_path : string) (d : tech_map) (name : string) :
  pattern_match name = None -> load_file mode dict_path d name = d.
Proof. intros H. unfold load_file. rewrite H. reflexivity. Qed.

Example load_short_only :
  load_directory "long" "dict" ["php_short.txt"] = [("php", ∅)].
Proof. reflexivity. Qed.

(** C4, as stated, fails: in mode "long" the file php_short.txt
    registers the key php, but its path is not recorded. *)
Lemma load_drops_other_type : ~ records_every_wordlist.
Proof.
  intros H.
  destruct (H "long" "dict" ["php_short.txt"] "php_short.txt" "php" "short")
    as (e & He & Hp).
  - left.
  - repeat split; [left; reflexivity|discriminate].
  - rewrite load_short_only in He. cbn in He. injection He as <-.
    rewrite lookup_empty in Hp. discriminate Hp.
Qed.

(** C4 (amended): the keys of the mapping are exactly the technology
    parts of the directory's files that follow the convention; the
    entry of a key holds a path under a type exactly when that type is
    the configured mode and the directory has the key's file of that
    type, and the path is that file's; a file of the other type only
    registers its key; a file outside the convention changes nothing. *)
Theorem load_directory_spec (mode dict_path : string) (entries : list string) :
  (forall tech_name,
     tech_name ∈ Dict.keys (load_directory mode dict_path entries)
     <-> exists name dict_type,
           name ∈ entries /\ follows_convention name tech_name dict_type)
  /\ (forall tech_name (e : entry) dict_type p,
        Dict.get tech_name (load_directory mode dict_path entries) = Some e ->
        (e !! dict_type = Some p
         <-> dict_type = mode
             /\ (dict_type = "short" \/ dict_type = "long")
             /\ tech_name ++ "_" ++ dict_type ++ ".txt" ∈ entries
             /\ p = file_path dict_path (tech_name ++ "_" ++ dict_type ++ ".txt")))
  /\ (forall before name after,
        (forall tech_name dict_type, ~ follows_convention name tech_name dict_type) ->
        load_directory mode dict_path (before ++ name :: after)
        = load_directory mode dict_path (before ++ after)).
Proof.
  unfold load_directory. split; [|split].
  - intros tech. rewrite <- dict_get_keys, load_get_is_Some. split.
    + intros (name & ty & [Hin Hglob]%elem_of_glob_txt & Hpm).
      exists name, ty. split; [exact Hin|].
      apply pattern_match_convention; assumption.
    + intros (name & ty & Hin & Hconv). exists name, ty.
      pose proof (convention_endswith _ _ _ Hconv) as Hglob.
      split; [apply elem_of_glob_txt; split; assumption|].
      apply pattern_match_convention; assumption.
  - intros tech e ty p He. split.
    + intros Hp. destruct (load_entry_paths _ _ _ _ _ _ _ He Hp)
        as (-> & name & [Hin Hglob]%elem_of_glob_txt & Hpm & ->).
      apply pattern_match_convention in Hpm as (-> & Hty & _ & _); [|exact Hglob].
      repeat split; assumption.
    + intros (-> & Hty & Hin & ->).
      assert (Hkey : is_Some (Dict.get tech
                (foldl (load_file mode dict_path) [] (glob_txt entries))))
        by (rewrite He; eexists; reflexivity).
      apply load_get_is_Some in Hkey as (n0 & t0 & _ & Hpm0).
      apply pattern_match_sound in Hpm0 as (_ & _ & _ & Hne & Hall).
      assert (Hconv : follows_convention (tech ++ "_" ++ mode ++ ".txt") tech mode)
        by (repeat split; assumption).
      pose proof (convention_endswith _ _ _ Hconv) as Hglob.
      destruct (load_entry_has_mode mode dict_path (glob_txt entries) tech
                  (tech ++ "_" ++ mode ++ ".txt")) as (e' & He' & [p' Hp']).
      * apply elem_of_glob_txt. split; assumption.
      * apply pattern_match_convention; assumption.
      * rewrite He in He'. injection He' as <-. rewrite Hp'. f_equal.
        destruct (load_entry_paths _ _ _ _ _ _ _ He Hp')
          as (_ & name & [_ Hg]%elem_of_glob_txt & Hpm & ->).
        apply pattern_match_convention in Hpm as (-> & _); [reflexivity|exact Hg].
  - intros before name after Hnot. unfold glob_txt.
    rewrite !filter_app, !foldl_app.
    destruct (endswith ".txt" name) eqn:Hglob.
    + rewrite filter_cons_True by exact Hglob. cbn [foldl].
      rewrite load_file_unmatched; [reflexivity|].
      destruct (pattern_match name) as [[tech ty]|] eqn:Hpm; [|reflexivity].
      exfalso. apply (Hnot tech ty). apply pattern_match_convention; assumption.
    + rewrite filter_cons_False by (rewrite Hglob; discriminate). reflexivity.
Qed.

Lemma load_directory_spec_witness :
  Dict.get "php" (load_directory "long" "dict" ["php_long.txt"; "php_short.txt"; "notes.txt"])
  = Some {["long" := "dict/php_long.txt"]}
  /\ ({["long" := "dict/php_long.txt"]} : entry) !! "short" = None.
Proof.
  assert (Hget : Dict.get "php"
            (load_directory "long" "dict" ["php_long.txt"; "php_short.txt"; "notes.txt"])
          = Some {["long" := "dict/php_long.txt"]}) by reflexivity.
  split; [exact Hget|].
  destruct (({["long" := "dict/php_long.txt"]} : entry) !! "short") as [p|] eqn:E;
    [|reflexivity].
  apply (proj1 (proj2 (load_directory_spec "long" "dict"
           ["php_long.txt"; "php_short.txt"; "notes.txt"])) "php" _ "short" p Hget)
    in E as [E _].
  discriminate E.
Defined.





(** ** The wordlist lookup *)

Lemma mode_only_empty (mode : string) : mode_only mode ∅.
Proof. intros ty [p Hp]. rewrite lookup_empty in Hp. discriminate. Qed.

Lemma mode_only_insert (mode p : string) (e : entry) :
  mode_only mode e -> mode_only mode (<[mode := p]> e).
Proof.
  intros He ty Hty. destruct (decide (mode = ty)) as [<-|Hne]; [reflexivity|].
  rewrite lookup_insert_ne in Hty by exact Hne. apply He, Hty.
Qed.

Lemma Forall_dict_set {V} (P : string * V -> Prop) (k : string) (v : V) (d : Dict.t V) :
  Forall P d -> P (k, v) -> Forall P (Dict.set k v d).
Proof.
  intros Hd Hkv. induction Hd as [|[k' v'] d Hx Hd IH]; cbn.
  - constructor; [exact Hkv|constructor].
  - destruct (String.eqb_spec k k') as [->|Hne]; constructor; assumption.
Qed.

Lemma load_file_mode_only (mode dict_path : string) (d : tech_map) (name : string) :
  Forall (fun x => mode_only mode x.2) d ->
  Forall (fun x => mode_only mode x.2) (load_file mode dict_path d name).
Proof.
  intros Hd. unfold load_file.
  destruct (pattern_match name) as [[tech ty]|]; [|exact Hd].
  rewrite mode_condition. cbn zeta.
  set (d1 := if Dict.mem tech d then d else Dict.set tech ∅ d).
  assert (Hd1 : Forall (fun x => mode_only mode x.2) d1).
  { unfold d1. destruct (Dict.mem tech d); [exact Hd|].
    apply Forall_dict_set; [exact Hd|apply mode_only_empty]. }
  destruct (String.eqb_spec ty mode) as [->|Hne]; [|exact Hd1].
  apply Forall_dict_set; [exact Hd1|]. cbn. apply mode_only_insert.
  destruct (Dict.get tech d1) as [e|] eqn:E; cbn; [|apply mode_only_empty].
  apply dict_get_elem in E. rewrite Forall_forall in Hd1. apply (Hd1 _ E).
Qed.

Lemma load_directory_mode_only (mode dict_path : string) (entries : list string) :
  Forall (fun x => mode_only mode x.2) (load_directory mode dict_path entries).
Proof.
  unfold load_directory. induction (glob_txt entries) as [|x files IH] using rev_ind.
  - constructor.
  - rewrite foldl_snoc. apply load_file_mode_only, IH.
Qed.

Lemma select_branch_mode_only (mode : string) (e : entry) (b : branch) (p : string) :
  mode_only mode e -> select_branch mode e = Some (b, p) -> b = ByMode.
Proof.
  intros He. unfold select_branch.
  destruct (e !! mode) as [q|] eqn:Em; [intros [= <- _]; reflexivity|].
  destruct (e !! "long") as [q|] eqn:El.
  - assert ("long" = mode) as <- by (apply He; rewrite El; eexists; reflexivity).
    congruence.
  - destruct (e !! "short") as [q|] eqn:Es; [|discriminate].
    assert ("short" = mode) as <- by (apply He; rewrite Es; eexists; reflexivity).
    congruence.
Qed.

Lemma find_loop_mode_only (mode normalized : string) (d : tech_map)
    (b : branch) (p : string) :
  Forall (fun x => mode_only mode x.2) d ->
  find_loop mode normalized d = Some (b, p) -> b = ByMode.
Proof.
  intros Hd. induction Hd as [|[tech e] d He Hd IH]; cbn [find_loop]; [discriminate|].
  destruct (String.eqb normalized tech);
    [|destruct (PyStr.contains normalized tech || PyStr.contains tech normalized);
      [|exact IH]];
    (destruct (select_branch mode e) as [[b' p']|] eqn:Es; [|exact IH]);
    intros [= -> ->]; apply (select_branch_mode_only mode e _ p He Es).
Qed.

(** C8: after the directory is loaded with a mode, every stored path
    sits under that mode's type and no other, and whenever the lookup
    returns a path it does so through the arm of the configured mode:
    the two fallback arms are never taken. *)
Theorem load_stores_mode_only (mode dict_path : string) (entries : list string) :
  (forall tech_name (e : entry) dict_type p,
     (tech_name, e) ∈ load_directory mode dict_path entries ->
     e !! dict_type = Some p -> dict_type = mode)
  /\ (forall tech_name b p,
        find_matching_branch mode (load_directory mode dict_path entries) tech_name
        = Some (b, p) ->
        b = ByMode
        /\ _find_matching_dict mode (load_directory mode dict_path entries) tech_name
           = Some p).
Proof.
  pose proof (load_directory_mode_only mode dict_path entries) as Hall.
  split.
  - intros tech e ty p Hin Hp. rewrite Forall_forall in Hall.
    apply (Hall _ Hin). cbn. rewrite Hp. eexists. reflexivity.
  - intros name b p Hfind. split; [|unfold _find_matching_dict; rewrite Hfind; reflexivity].
    unfold find_matching_branch in Hfind. cbn zeta in Hfind.
    destruct (Dict.get (_normalize_tech_name name) (load_directory mode dict_path entries))
      as [e|] eqn:Eg; cbn [mbind option_bind] in Hfind.
    + destruct (select_branch mode e) as [[b' p']|] eqn:Es.
      * injection Hfind as -> ->. apply dict_get_elem in Eg.
        rewrite Forall_forall in Hall.
        apply (select_branch_mode_only mode e _ p (Hall _ Eg) Es).
      * apply (find_loop_mode_only _ _ _ _ _ Hall Hfind).
    + apply (find_loop_mode_only _ _ _ _ _ Hall Hfind).
Qed.

Lemma load_stores_mode_only_witness :
  find_matching_branch "short"
    (load_directory "short" "dict" ["php_long.txt"; "php-fpm_short.txt"]) "PHP"
  = Some (ByMode, "dict/php-fpm_short.txt")
  /\ _find_matching_dict "short"
       (load_directory "short" "dict" ["php_long.txt"; "php-fpm_short.txt"]) "PHP"
     = Some "dict/php-fpm_short.txt".
Proof.
  assert (Hfind : find_matching_branch "short"
            (load_directory "short" "dict" ["php_long.txt"; "php-fpm_short.txt"]) "PHP"
          = Some (ByMode, "dict/php-fpm_short.txt")) by reflexivity.
  split; [exact Hfind|].
  apply (proj2 (load_stores_mode_only "short" "dict" ["php_long.txt"; "php-fpm_short.txt"])
           "PHP" ByMode "dict/php-fpm_short.txt" Hfind).
Defined.


Lemma find_loop_cons (mode normalized tech : string) (e : entry) (d : tech_map) :
  find_loop mode normalized ((tech, e) :: d)
  = if key_matches normalized tech
    then match select_branch mode e with
         | Some r => Some r
         | None => find_loop mode normalized d
         end
    else find_loop mode normalized d.
Proof.
  cbn [find_loop]. unfold key_matches.
  destruct (String.eqb normalized tech), (PyStr.contains normalized tech),
    (PyStr.contains tech normalized); reflexivity.
Qed.

Lemma find_loop_Some (mode normalized : string) (d : tech_map) (r : branch * string) :
  find_loop mode normalized d = Some r ->
  exists tech e, (tech, e) ∈ d
                 /\ key_matches normalized tech = true
                 /\ select_branch mode e = Some r.
Proof.
  induction d as [|[tech e] d IH]; [discriminate|]. rewrite find_loop_cons.
  assert (Htail : find_loop mode normalized d = Some r ->
            exists tech' e', (tech', e') ∈ (tech, e) :: d
              /\ key_matches normalized tech' = true
              /\ select_branch mode e' = Some r).
  { intros (t' & e' & Hin & Hm & Hs)%IH. exists t', e'.
    split; [right; exact Hin|]. split; assumption. }
  destruct (key_matches normalized tech) eqn:Hm; [|exact Htail].
  destruct (select_branch mode e) as [r'|] eqn:Es; [|exact Htail].
  intros [= ->]. exists tech, e. split; [left|]. split; assumption.
Qed.

Lemma find_loop_finds (mode normalized : string) (d : tech_map) (tech : string) (e : entry) :
  (tech, e) ∈ d ->
  key_matches normalized tech = true ->
  is_Some (select_branch mode e) ->
  is_Some (find_loop mode normalized d).
Proof.
  intros Hin Hm Hs. induction d as [|[tech' e'] d IH]; [inversion Hin|].
  rewrite find_loop_cons. inversion Hin; subst.
  - rewrite Hm. destruct Hs as [r ->]. eexists. reflexivity.
  - destruct (key_matches normalized tech'); [|apply IH; assumption].
    destruct (select_branch mode e'); [eexists; reflexivity|apply IH; assumption].
Qed.

Example lookup_short_only :
  _find_matching_dict "long" (load_directory "long" "dict" ["php_short.txt"]) "PHP" = None.
Proof. reflexivity. Qed.

Example lookup_exact :
  _find_matching_dict "long"
    (load_directory "long" "dict" ["php-fpm_long.txt"; "php_long.txt"]) "PHP"
  = Some "dict/php_long.txt".
Proof. reflexivity. Qed.

Example lookup_fuzzy :
  _find_matching_dict "long"
    (load_directory "long" "dict" ["php-fpm_long.txt"; "php_short.txt"]) "PHP"
  = Some "dict/php-fpm_long.txt".
Proof. reflexivity. Qed.

(** C3, as stated, fails: in mode "long" a directory holding only
    php_short.txt has the key php, which "PHP" matches exactly, yet the
    lookup returns [None]. *)
Lemma lookup_misses_matching_key : ~ returns_path_iff_key_matches.
Proof.
  intros H. destruct (H "long" "dict" ["php_short.txt"] "PHP") as [_ Hback].
  destruct Hback as [p Hp].
  - exists "php". split; [left|reflexivity].
  - rewrite lookup_short_only in Hp. discriminate Hp.
Qed.

(** C3 (amended): the lookup normalises the name and returns a path
    exactly when the normalised name matches, exactly or by containment
    in either direction, a key whose entry holds a wordlist path; a key
    registered without one is passed over.  An exact match whose entry
    holds a path wins over any other key; every returned path comes from
    the entry of a matching key.  When the lookup returns [None] the
    technology is skipped: no ffuf run is launched and nothing is added. *)
Theorem find_matching_dict_spec (mode : string) (tech_to_dict : tech_map)
    (tech_name : string) :
  (is_Some (_find_matching_dict mode tech_to_dict tech_name)
   <-> exists key e, (key, e) ∈ tech_to_dict
                     /\ key_matches (_normalize_tech_name tech_name) key = true
                     /\ is_Some (select_branch mode e))
  /\ (forall e r,
        Dict.get (_normalize_tech_name tech_name) tech_to_dict = Some e ->
        select_branch mode e = Some r ->
        _find_matching_dict mode tech_to_dict tech_name = Some r.2)
  /\ (forall p,
        _find_matching_dict mode tech_to_dict tech_name = Some p ->
        exists key e b, (key, e) ∈ tech_to_dict
                        /\ key_matches (_normalize_tech_name tech_name) key = true
                        /\ select_branch mode e = Some (b, p))
  /\ (_find_matching_dict mode tech_to_dict tech_name = None ->
      forall occurrence url ffuf st,
        process_tech mode occurrence tech_to_dict url ffuf st tech_name = Return st).
Proof.
  set (normalized := _normalize_tech_name tech_name).
  assert (Hself : key_matches normalized normalized = true)
    by (unfold key_matches; rewrite String.eqb_refl; reflexivity).
  assert (Hfrom : forall r, find_matching_branch mode tech_to_dict tech_name = Some r ->
            exists key e, (key, e) ∈ tech_to_dict
              /\ key_matches normalized key = true
              /\ select_branch mode e = Some r).
  { intros r. unfold find_matching_branch. fold normalized. cbn zeta.
    destruct (Dict.get normalized tech_to_dict) as [e|] eqn:Eg; cbn [mbind option_bind].
    - destruct (select_branch mode e) as [r'|] eqn:Es; [|apply find_loop_Some].
      intros [= ->]. exists normalized, e.
      split; [apply dict_get_elem, Eg|]. split; assumption.
    - apply find_loop_Some. }
  split; [|split; [|split]].
  - unfold _find_matching_dict. rewrite fmap_is_Some. split.
    + intros [r Hr]. destruct (Hfrom r Hr) as (key & e & Hin & Hm & Hs).
      exists key, e. split; [exact Hin|]. split; [exact Hm|].
      rewrite Hs. eexists. reflexivity.
    + intros (key & e & Hin & Hm & Hs). unfold find_matching_branch.
      fold normalized. cbn zeta.
      destruct (Dict.get normalized tech_to_dict ≫= select_branch mode);
        [eexists; reflexivity|].
      apply (find_loop_finds mode normalized tech_to_dict key e); assumption.
  - intros e r Hget Hsel. unfold _find_matching_dict, find_matching_branch.
    fold normalized. rewrite Hget. cbn [mbind option_bind]. rewrite Hsel. reflexivity.
  - intros p. unfold _find_matching_dict.
    destruct (find_matching_branch mode tech_to_dict tech_name) as [[b q]|] eqn:Hr;
      [|discriminate].
    cbn. intros [= ->]. destruct (Hfrom _ eq_refl) as (key & e & Hin & Hm & Hs).
    exists key, e, b. split; [exact Hin|]. split; assumption.
  - intros Hnone occurrence url ffuf st. unfold process_tech. rewrite Hnone. reflexivity.
Qed.

Lemma find_matching_dict_spec_witness :
  _find_matching_dict "long" (load_directory "long" "dict" ["php_short.txt"]) "PHP" = None
  /\ process_tech "long" 10 (load_directory "long" "dict" ["php_short.txt"])
       "http://target" one_page initial_state "PHP"
     = Return initial_state.
Proof.
  assert (Hnone : _find_matching_dict "long"
            (load_directory "long" "dict" ["php_short.txt"]) "PHP" = None) by reflexivity.
  split; [exact Hnone|].
  apply (proj2 (proj2 (proj2 (find_matching_dict_spec "long"
           (load_directory "long" "dict" ["php_short.txt"]) "PHP"))) Hnone).
Defined.


(** ** The per-URL loop *)

Section ProcessFacts.

Variable mode : string.
Variable occurrence : Z.
Variable tech_to_dict : tech_map.
Variable url : string.
Variable ffuf : string -> string -> proc_outcome ffuf_file.

Lemma process_tech_eq (st : loop_state) (tech : string) :
  process_tech mode occurrence tech_to_dict url ffuf st tech
  = match tech_wordlist mode tech_to_dict tech with
    | None => Return st
    | Some dict_path =>
        results ← run_ffuf (ffuf dict_path tech);
        Return (record_run occurrence url st tech dict_path results)
    end.
Proof.
  unfold process_tech, tech_wordlist.
  destruct (_find_matching_dict mode tech_to_dict tech) as [p|]; [|reflexivity].
  destruct (String.eqb p ""); [reflexivity|].
  destruct (run_ffuf (ffuf p tech)) as [results| |]; cbn [mbind py_result_bind];
    [|reflexivity|reflexivity].
  unfold record_run. destruct results as [|r results]; [reflexivity|].
  destruct (analyze_results occurrence (r :: results)); reflexivity.
Qed.

Lemma fuzzed_cons (tech : string) (techs : list string) :
  fuzzed mode tech_to_dict (tech :: techs)
  = match tech_wordlist mode tech_to_dict tech with
    | Some dict_path => (tech, dict_path) :: fuzzed mode tech_to_dict techs
    | None => fuzzed mode tech_to_dict techs
    end.
Proof.
  unfold fuzzed, tech_wordlist. cbn [omap list_omap].
  destruct (_find_matching_dict mode tech_to_dict tech) as [p|]; [|reflexivity].
  destruct (String.eqb p ""); reflexivity.
Qed.

Lemma record_run_all_results (st : loop_state) (tech dict_path : string)
    (results : list record) :
  all_results (record_run occurrence url st tech dict_path results)
  = (all_results st
     ++ map (annotate tech dict_path) (analyze_results occurrence results))%list.
Proof.
  unfold record_run.
  destruct (map (annotate tech dict_path) (analyze_results occurrence results));
    cbn; [rewrite app_nil_r|]; reflexivity.
Qed.

Lemma record_run_launched (st : loop_state) (tech dict_path : string)
    (results : list record) :
  launched (record_run occurrence url st tech dict_path results)
  = (launched st ++ [(dict_path, tech)])%list.
Proof.
  unfold record_run.
  destruct (map (annotate tech dict_path) (analyze_results occurrence results));
    reflexivity.
Qed.

Lemma run_ffuf_installed (run : proc_outcome ffuf_file) :
  match run with FileNotFoundError => false | _ => true end = true ->
  run_ffuf run = Return (returned (run_ffuf run)).
Proof. destruct run as [[| |[results|]]| | |]; cbn; congruence. Qed.

(** With ffuf installed the loop runs to its end, fuzzes once for
    each technology that has a wordlist, and appends to [all_results]
    what each run's own filter kept. *)
Lemma process_techs_returns (techs : list string) :
  forall st,
    ffuf_installed ffuf (fuzzed mode tech_to_dict techs) = true ->
    exists st',
      process_techs mode occurrence tech_to_dict url ffuf st techs = Return st'
      /\ all_results st'
         = (all_results st
            ++ per_tech_results mode occurrence tech_to_dict ffuf techs)%list
      /\ launched st'
         = (launched st
            ++ map (fun x => (x.2, x.1)) (fuzzed mode tech_to_dict techs))%list.
Proof.
  induction techs as [|tech techs IH]; intros st Hinst.
  - exists st. cbn. rewrite !app_nil_r. repeat split; reflexivity.
  - cbn [process_techs]. rewrite process_tech_eq.
    unfold per_tech_results in *. rewrite fuzzed_cons in *.
    destruct (tech_wordlist mode tech_to_dict tech) as [p|].
    + cbn [ffuf_installed forallb] in Hinst. apply andb_true_iff in Hinst as [H1 H2].
      rewrite (run_ffuf_installed _ H1). cbn [mbind py_result_bind].
      destruct (IH (record_run occurrence url st tech p
                      (returned (run_ffuf (ffuf p tech)))) H2)
        as (st' & Hret & Hall & Hl).
      exists st'. split; [exact Hret|]. split.
      * rewrite Hall, record_run_all_results. cbn [map concat].
        rewrite <- app_assoc. reflexivity.
      * rewrite Hl, record_run_launched. cbn [map]. rewrite <- app_assoc. reflexivity.
    + cbn [mbind py_result_bind]. apply IH, Hinst.
Qed.

End ProcessFacts.

Example two_wordlists_fuzzed :
  fuzzed "long" two_wordlists ["php"; "nginx"]
  = [("php", "dict/php_long.txt"); ("nginx", "dict/nginx_long.txt")].
Proof. reflexivity. Qed.

(** C2, as stated, fails: with threshold 1 and one record of length 5
    from each of two technologies, the code counts each record within
    its own run and saves both, while a count over the union would be 2
    and leave none. *)
Lemma filter_is_not_combined :
  ~ (forall mode occurrence tech_to_dict url ffuf techs,
       final_results (process_detected mode occurrence tech_to_dict url ffuf techs)
       = spec_combined_results mode occurrence tech_to_dict ffuf techs).
Proof.
  intros H.
  specialize (H "long" 1%Z two_wordlists "http://target" one_page ["php"; "nginx"]).
  apply (f_equal length) in H. vm_compute in H. discriminate H.
Qed.

(** C2 (amended): for a URL the occurrence filter is applied to the
    results of each technology's fuzzing run separately, every record's
    count being taken over the results of its own run; the final list
    is the concatenation, in the order of the runs, of what each run's
    filter kept.  With ffuf installed the loop always runs to its end. *)
Theorem process_detected_filters_per_tech (mode : string) (occurrence : Z)
    (tech_to_dict : tech_map) (url : string)
    (ffuf : string -> string -> proc_outcome ffuf_file) (techs : list string) :
  ffuf_installed ffuf (fuzzed mode tech_to_dict techs) = true ->
  (exists saved,
     process_detected mode occurrence tech_to_dict url ffuf techs = Return saved)
  /\ final_results (process_detected mode occurrence tech_to_dict url ffuf techs)
     = per_tech_results mode occurrence tech_to_dict ffuf techs.
Proof.
  intros Hinst.
  destruct (process_techs_returns mode occurrence tech_to_dict url ffuf techs
              initial_state Hinst) as (st & Hret & Hall & _).
  cbn [initial_state all_results app] in Hall.
  unfold process_detected. destruct techs as [|tech techs].
  - split; [eexists; reflexivity|reflexivity].
  - rewrite Hret. cbn [mbind py_result_bind]. rewrite <- Hall.
    destruct (all_results st); split; try (eexists; reflexivity); reflexivity.
Qed.

Lemma process_detected_filters_per_tech_witness :
  ffuf_installed one_page (fuzzed "long" two_wordlists ["php"; "nginx"]) = true
  /\ final_results
       (process_detected "long" 1%Z two_wordlists "http://target" one_page ["php"; "nginx"])
     = per_tech_results "long" 1%Z two_wordlists one_page ["php"; "nginx"].
Proof.
  split; [reflexivity|].
  apply (process_detected_filters_per_tech "long" 1%Z two_wordlists "http://target"
           one_page ["php"; "nginx"]).
  reflexivity.
Defined.

(** ** The saved report *)

Lemma dict_set_fresh {V} (k : string) (v : V) (d : Dict.t V) :
  k ∉ Dict.keys d -> Dict.set k v d = (d ++ [(k, v)])%list.
Proof.
  unfold Dict.keys. induction d as [|[k' v'] d IH]; cbn; [reflexivity|].
  intros Hk. destruct (String.eqb_spec k k') as [->|Hne].
  - exfalso. apply Hk. left.
  - rewrite IH; [reflexivity|]. intros Hin. apply Hk. right. exact Hin.
Qed.

Lemma annotate_tagged (tech dict_path : string) (r : record) :
  tagged tech (annotate tech dict_path r).
Proof.
  unfold tagged, annotate. rewrite lookup_insert_ne by discriminate.
  apply lookup_insert_eq.
Qed.

Lemma tagged_inj (tech tech' : string) (r : record) :
  tagged tech r -> tagged tech' r -> tech = tech'.
Proof. unfold tagged. intros H H'. congruence. Qed.

Section ReportFacts.

Variable mode : string.
Variable occurrence : Z.
Variable tech_to_dict : tech_map.
Variable url : string.
Variable ffuf : string -> string -> proc_outcome ffuf_file.

Lemma loop_invariant_mono (st : loop_state) (done : list string) (tech : string) :
  loop_invariant st done -> loop_invariant st (done ++ [tech]).
Proof.
  intros (Hall & Hmap & Hnd). split; [exact Hall|]. split; [|exact Hnd].
  eapply Forall_impl; [exact Hmap|]. intros x (H1 & H2 & H3).
  split; [exact H1|]. split; [exact H2|]. apply elem_of_app. left. exact H3.
Qed.

Lemma record_run_invariant (st : loop_state) (done : list string)
    (tech dict_path : string) (results : list record) :
  loop_invariant st done ->
  tech ∉ done ->
  loop_invariant (record_run occurrence url st tech dict_path results) (done ++ [tech]).
Proof.
  intros Hinv Hfresh. pose proof (loop_invariant_mono st done tech Hinv) as Hmono.
  unfold record_run.
  destruct (map (annotate tech dict_path) (analyze_results occurrence results))
    as [|a analyzed] eqn:Ea; [exact Hmono|].
  destruct Hmono as (_ & Hmap' & _). destruct Hinv as (Hall & Hmap & Hnd).
  assert (Hkey : tech ∉ Dict.keys (tech_results_map st)).
  { intros Hin. apply Hfresh. unfold Dict.keys in Hin.
    apply list_elem_of_In, in_map_iff in Hin as (x & <- & Hx).
    rewrite Forall_forall in Hmap. apply list_elem_of_In in Hx.
    apply (Hmap x Hx). }
  unfold loop_invariant. cbn [all_results tech_results_map].
  rewrite (dict_set_fresh _ _ _ Hkey). split; [|split].
  - rewrite map_app, concat_app, Hall. cbn. rewrite app_nil_r. reflexivity.
  - apply Forall_app. split; [exact Hmap'|]. constructor; [|constructor].
    cbn. split; [discriminate|]. split; [|apply elem_of_app; right; left].
    rewrite <- Ea. apply Forall_forall. intros r Hr.
    apply list_elem_of_In, in_map_iff in Hr as (r0 & <- & _). apply annotate_tagged.
  - unfold Dict.keys in *. rewrite map_app. cbn. apply NoDup_app.
    split; [exact Hnd|]. split; [|apply NoDup_singleton].
    intros x Hx Hx'. apply list_elem_of_singleton in Hx'. subst x. apply Hkey, Hx.
Qed.

Lemma process_techs_invariant (techs : list string) :
  forall st st' done,
    loop_invariant st done ->
    NoDup (done ++ techs) ->
    process_techs mode occurrence tech_to_dict url ffuf st techs = Return st' ->
    loop_invariant st' (done ++ techs).
Proof.
  induction techs as [|tech techs IH]; intros st st' done Hinv Hnd.
  - cbn. intros [= <-]. rewrite app_nil_r. exact Hinv.
  - cbn [process_techs]. rewrite process_tech_eq.
    assert (Hfresh : tech ∉ done).
    { apply NoDup_app in Hnd as (_ & Hdisj & _). intros Hin.
      apply (Hdisj tech Hin). left. }
    assert (Hnd' : NoDup ((done ++ [tech]) ++ techs))
      by (rewrite <- app_assoc; exact Hnd).
    replace (done ++ tech :: techs)%list with ((done ++ [tech]) ++ techs)%list
      by (rewrite <- app_assoc; reflexivity).
    destruct (tech_wordlist mode tech_to_dict tech) as [p|].
    + destruct (run_ffuf (ffuf p tech)) as [results| |]; cbn [mbind py_result_bind];
        [|discriminate|discriminate].
      apply IH; [|exact Hnd']. apply record_run_invariant; assumption.
    + cbn [mbind py_result_bind]. apply IH; [|exact Hnd'].
      apply loop_invariant_mono, Hinv.
Qed.

End ReportFacts.

Lemma filter_tagged_other (tech : string) (d : Dict.t (list record)) :
  Forall (fun x => Forall (tagged x.1) x.2) d ->
  tech ∉ Dict.keys d ->
  filter (tagged tech) (concat (map snd d)) = [].
Proof.
  unfold Dict.keys. induction d as [|[k l] d IH]; intros Hd Hk; [reflexivity|].
  apply Forall_cons in Hd as [Hl Hd]. cbn in *. rewrite filter_app.
  rewrite IH; [|exact Hd|intros Hin; apply Hk; right; exact Hin].
  rewrite app_nil_r. induction Hl as [|r l Hr Hl IHl]; [reflexivity|].
  rewrite filter_cons_False; [exact IHl|].
  intros Ht. apply Hk. rewrite (tagged_inj _ _ r Ht Hr). left.
Qed.

Lemma filter_tagged_all (tech : string) (l : list record) :
  Forall (tagged tech) l -> filter (tagged tech) l = l.
Proof.
  induction 1 as [|r l Hr Hl IH]; [reflexivity|].
  rewrite filter_cons_True by exact Hr. rewrite IH. reflexivity.
Qed.

Lemma filter_tagged_own (tech : string) (l : list record) (d : Dict.t (list record)) :
  Forall (fun x => Forall (tagged x.1) x.2) d ->
  NoDup (Dict.keys d) ->
  (tech, l) ∈ d ->
  filter (tagged tech) (concat (map snd d)) = l.
Proof.
  unfold Dict.keys. induction d as [|[k l0] d IH]; intros Hd Hnd Hin; [inversion Hin|].
  apply Forall_cons in Hd as [Hl Hd]. cbn in Hl, Hnd. apply NoDup_cons in Hnd as [Hk Hnd].
  cbn [map concat]. rewrite filter_app. apply elem_of_cons in Hin as [[= -> ->]|Hin].
  - cbn [snd]. rewrite (filter_tagged_all _ _ Hl), (filter_tagged_other _ _ Hd Hk).
    apply app_nil_r.
  - rewrite (IH Hd Hnd Hin). cbn [snd].
    assert (Hne : tech <> k).
    { intros ->. apply Hk. apply list_elem_of_In, in_map_iff. exists (k, l).
      split; [reflexivity|apply list_elem_of_In; assumption]. }
    clear -Hl Hne. induction Hl as [|r l0 Hr Hl IHl]; [reflexivity|].
    rewrite filter_cons_False; [exact IHl|].
    intros Ht. apply Hne. apply (tagged_inj _ _ r Ht Hr).
Qed.

Lemma sum_lengths (d : Dict.t (list record)) :
  sum_list (map snd (map (fun '(tech, results_list) => (tech, length results_list)) d))
  = length (concat (map snd d)).
Proof.
  induction d as [|[k l] d IH]; [reflexivity|].
  cbn [map snd concat sum_list sum_list_with]. rewrite length_app, <- IH. reflexivity.
Qed.

(** C7: a report saved by the per-URL loop is consistent: each count
    of results_by_tech is the number of records of the results list
    annotated with that technology, the counts add up to the length of
    the results list, technologies_detected names exactly the
    technologies that annotate a record, and it lists the technologies
    that results_by_tech counts. *)
Theorem saved_report_consistent (mode : string) (occurrence : Z)
    (tech_to_dict : tech_map) (url : string)
    (ffuf : string -> string -> proc_outcome ffuf_file)
    (techs : list string) (rep : report) :
  NoDup techs ->
  process_detected mode occurrence tech_to_dict url ffuf techs = Return (Some rep) ->
  report_consistent rep.
Proof.
  intros Hnd. unfold process_detected. destruct techs as [|tech techs]; [discriminate|].
  destruct (process_techs mode occurrence tech_to_dict url ffuf initial_state
              (tech :: techs)) as [st| |] eqn:Hloop; cbn [mbind py_result_bind];
    [|discriminate|discriminate].
  assert (Hinit : loop_invariant initial_state []).
  { split; [reflexivity|]. split; constructor. }
  destruct (process_techs_invariant _ _ _ _ _ _ _ _ _ Hinit Hnd Hloop)
    as (Hall & Hmap & Hkeys).
  destruct (all_results st) as [|r0 rs] eqn:Eall; [discriminate|].
  intros [= <-]. unfold report_consistent, _save_results.
  cbn [results_by_tech report_results technologies_detected].
  assert (Htag : Forall (fun x : string * list record => Forall (tagged x.1) x.2)
                   (tech_results_map st)).
  { eapply Forall_impl; [exact Hmap|]. intros x (_ & H & _). exact H. }
  rewrite Hall. split; [|split; [|split]].
  - intros t n Hin. apply list_elem_of_In, in_map_iff in Hin as ([k l] & [= <- <-] & Hin).
    apply list_elem_of_In in Hin.
    rewrite (filter_tagged_own k l _ Htag Hkeys Hin). reflexivity.
  - apply sum_lengths.
  - intros t. unfold Dict.keys. split.
    + intros Hin. apply list_elem_of_In, in_map_iff in Hin as ([k l] & Hk & Hin).
      cbn in Hk. subst k. apply list_elem_of_In in Hin.
      rewrite Forall_forall in Hmap. destruct (Hmap _ Hin) as (Hne & Hl & _).
      cbn in Hne, Hl. destruct l as [|r l]; [congruence|]. exists r. split.
      * apply list_elem_of_In, in_concat. exists (r :: l). split; [|left; reflexivity].
        apply in_map_iff. exists (t, r :: l).
        split; [reflexivity|apply list_elem_of_In; exact Hin].
      * apply Forall_cons in Hl as [Hr _]. exact Hr.
    + intros (r & Hr & Ht).
      apply list_elem_of_In, in_concat in Hr as (l & Hl & Hr).
      apply in_map_iff in Hl as ([k l'] & Hk & Hin). cbn in Hk. subst l'.
      apply list_elem_of_In in Hin. rewrite Forall_forall in Htag.
      pose proof (Htag _ Hin) as Hall'. cbn in Hall'. rewrite Forall_forall in Hall'.
      apply list_elem_of_In in Hr.
      rewrite (tagged_inj _ _ r Ht (Hall' r Hr)).
      apply list_elem_of_In, in_map_iff. exists (k, l).
      split; [reflexivity|apply list_elem_of_In; exact Hin].
  - unfold Dict.keys. rewrite map_map. apply map_ext. intros [k l]. reflexivity.
Qed.

Example two_wordlists_counts :
  results_by_tech two_wordlists_report = [("php", 1%nat); ("nginx", 1%nat)]
  /\ technologies_detected two_wordlists_report = ["php"; "nginx"]
  /\ length (report_results two_wordlists_report) = 2%nat.
Proof. repeat split; reflexivity. Qed.

Lemma saved_report_consistent_witness :
  NoDup ["php"; "nginx"] /\ report_consistent two_wordlists_report.
Proof.
  assert (Hnd : NoDup ["php"; "nginx"]).
  { apply NoDup_cons. split; [|apply NoDup_singleton].
    intros H. apply list_elem_of_singleton in H. discriminate H. }
  split; [exact Hnd|].
  apply (saved_report_consistent "long" 1%Z two_wordlists "http://target" one_page
           ["php"; "nginx"] two_wordlists_report Hnd).
  reflexivity.
Defined.

(** ** Timeouts and missing binaries *)

Example run_ffuf_timeout : run_ffuf TimeoutExpired = Return [].
Proof. reflexivity. Qed.

Example run_ffuf_not_found : run_ffuf FileNotFoundError = SysExit 1.
Proof. reflexivity. Qed.

Example detect_try_timeout : detect_try TimeoutExpired = Return ∅.
Proof. reflexivity. Qed.

Example detect_try_not_found : detect_try FileNotFoundError = SysExit 1.
Proof. reflexivity. Qed.

Section FfufOutcomes.

Variable mode : string.
Variable occurrence : Z.
Variable tech_to_dict : tech_map.
Variable url : string.
Variable ffuf : string -> string -> proc_outcome ffuf_file.

(** A timed-out ffuf run adds nothing and the loop goes on. *)
Lemma process_tech_ffuf_timeout (st : loop_state) (tech dict_path : string) :
  tech_wordlist mode tech_to_dict tech = Some dict_path ->
  ffuf dict_path tech = TimeoutExpired ->
  exists st',
    process_tech mode occurrence tech_to_dict url ffuf st tech = Return st'
    /\ all_results st' = all_results st
    /\ tech_results_map st' = tech_results_map st.
Proof.
  intros Hw Hrun. rewrite process_tech_eq, Hw, Hrun. cbn. eexists.
  split; [reflexivity|]. split; reflexivity.
Qed.

(** A missing ffuf binary ends the loop, and the program, with status 1. *)
Lemma process_techs_ffuf_missing (st : loop_state) (tech dict_path : string)
    (techs : list string) :
  tech_wordlist mode tech_to_dict tech = Some dict_path ->
  ffuf dict_path tech = FileNotFoundError ->
  process_techs mode occurrence tech_to_dict url ffuf st (tech :: techs) = SysExit 1.
Proof.
  intros Hw Hrun. cbn [process_techs]. rewrite process_tech_eq, Hw, Hrun. reflexivity.
Qed.

End FfufOutcomes.

(** C6: the handlers do what the claim says where they are reached: a
    timed-out ffuf run gives the empty list and a missing ffuf exits
    with status 1, and the [try] block of the detection gives the empty
    set on a timeout and exits with status 1 when nuclei is missing.
    The detection, however, never gets to its [try] block: asking the
    string [exposures_path] whether it exists raises [AttributeError],
    whatever the templates directory holds and however the nuclei run
    would end, and [process_url] stops with that exception. *)
Theorem detection_never_returns (mode : string) (occurrence : Z)
    (tech_to_dict : tech_map) (url : string)
    (ffuf : string -> string -> proc_outcome ffuf_file)
    (nuclei_templates_path : string) (fs_exists : string -> bool)
    (nuclei : proc_outcome nuclei_output) :
  detect_technologies nuclei_templates_path fs_exists nuclei = Raise AttributeError
  /\ process_url mode occurrence tech_to_dict url ffuf
       nuclei_templates_path fs_exists nuclei
     = Raise AttributeError
  /\ detect_try TimeoutExpired = Return ∅
  /\ detect_try FileNotFoundError = SysExit 1
  /\ run_ffuf TimeoutExpired = Return []
  /\ run_ffuf FileNotFoundError = SysExit 1.
Proof.
  assert (H : detect_technologies nuclei_templates_path fs_exists nuclei
              = Raise AttributeError) by reflexivity.
  split; [exact H|]. split; [|repeat split].
  unfold process_url. rewrite H. reflexivity.
Qed.

(** * Further properties *)

(** ** Normalisation: shape, length, fixed points *)

Lemma all_chars_andb (P Q : ascii -> bool) (s : string) :
  PyStr.all_chars (fun c => P c && Q c) s = PyStr.all_chars P s && PyStr.all_chars Q s.
Proof.
  induction s as [|c s IH]; cbn [PyStr.all_chars]; [reflexivity|].
  rewrite IH. destruct (P c), (Q c), (PyStr.all_chars P s); reflexivity.
Qed.

Lemma normalized_name_chars (s : string) :
  PyStr.all_chars name_char (_normalize_tech_name s) = true.
Proof.
  unfold name_char. rewrite !all_chars_andb.
  rewrite normalized_no_upper, normalized_no_space, normalized_no_underscore,
    normalized_no_period. reflexivity.
Qed.

Lemma lstrip_head (c : ascii) (s : string) :
  PyStr.startswith (String c "") (PyStr.lstrip c s) = false.
Proof.
  induction s as [|a s IH]; [reflexivity|]. cbn [PyStr.lstrip].
  destruct (Ascii.eqb a c) eqn:E; [exact IH|].
  cbn. rewrite Ascii.eqb_sym, E. reflexivity.
Qed.

Lemma rstrip_head (c : ascii) (s : string) :
  PyStr.startswith (String c "") s = false ->
  PyStr.startswith (String c "") (PyStr.rstrip c s) = false.
Proof.
  destruct s as [|a s]; [reflexivity|]. cbn [PyStr.rstrip PyStr.startswith].
  destruct (Ascii.eqb c a) eqn:E; [discriminate|]. intros _.
  destruct (PyStr.rstrip c s).
  - rewrite Ascii.eqb_sym, E. cbn. rewrite E. reflexivity.
  - cbn. rewrite E. reflexivity.
Qed.

Lemma rstrip_last (c : ascii) (s : string) :
  last_char (PyStr.rstrip c s) <> Some c.
Proof.
  induction s as [|a s IH]; [discriminate|]. cbn [PyStr.rstrip].
  destruct (PyStr.rstrip c s) as [|b r] eqn:E.
  - destruct (Ascii.eqb_spec a c) as [->|Hne]; [discriminate|].
    cbn. congruence.
  - change (last_char (String a (String b r)))
      with (match last_char (String b r) with Some d => Some d | None => Some a end).
    destruct (last_char (String b r)) as [d|] eqn:El; [exact IH|].
    cbn in El. destruct (last_char r); discriminate.
Qed.

(** X1: a normalised name holds no upper-case letter, space,
    underscore or period, and neither begins nor ends with a hyphen. *)
Theorem normalized_shape (s : string) :
  PyStr.all_chars name_char (_normalize_tech_name s) = true
  /\ PyStr.startswith "-" (_normalize_tech_name s) = false
  /\ last_char (_normalize_tech_name s) <> Some "-"%char.
Proof.
  split; [apply normalized_name_chars|]. unfold _normalize_tech_name, PyStr.strip.
  split; [apply rstrip_head, lstrip_head|apply rstrip_last].
Qed.









(** ** Normalisation: case and separators *)

Lemma lower_map_chars (s : string) : PyStr.lower s = map_chars PyStr.lower_char s.
Proof. induction s as [|c s IH]; cbn; [reflexivity|]. rewrite IH. reflexivity. Qed.

Lemma map_chars_compose (f g : ascii -> ascii) (s : string) :
  map_chars f (map_chars g s) = map_chars (fun c => f (g c)) s.
Proof. induction s as [|c s IH]; cbn; [reflexivity|]. rewrite IH. reflexivity. Qed.

Lemma map_chars_ext (f g : ascii -> ascii) (s : string) :
  (forall c, f c = g c) -> map_chars f s = map_chars g s.
Proof. intros H. induction s as [|c s IH]; cbn; [reflexivity|]. rewrite H, IH. reflexivity. Qed.

(** Replacing one character by another is a character-wise map. *)
Lemma replace_char_map (c d : ascii) (s : string) :
  PyStr.replace (String c "") (String d "") s
  = map_chars (fun x => if Ascii.eqb x c then d else x) s.
Proof.
  unfold PyStr.replace. induction s as [|a s IH]; [reflexivity|].
  cbn [PyStr.replace_go PyStr.startswith String.length Nat.sub map_chars].
  rewrite (Ascii.eqb_sym c a). destruct (Ascii.eqb a c); cbn [andb].
  - destruct s; cbn [String.append]; rewrite IH; reflexivity.
  - rewrite IH. reflexivity.
Qed.

Lemma first_steps_fold (s : string) :
  PyStr.replace "_" "-" (PyStr.replace " " "-" (PyStr.lower s)) = map_chars fold_char s.
Proof.
  rewrite lower_map_chars, !replace_char_map, !map_chars_compose.
  apply map_chars_ext. intros c. unfold fold_char.
  destruct (Ascii.eqb (PyStr.lower_char c) " ") eqn:E1; [reflexivity|].
  destruct (Ascii.eqb (PyStr.lower_char c) "_"); reflexivity.
Qed.

(** X3: two names that differ only in letter case and in the choice
    among space, underscore and hyphen normalise to the same name. *)
Theorem normalize_folds_case_and_separators (s1 s2 : string) :
  map_chars fold_char s1 = map_chars fold_char s2 ->
  _normalize_tech_name s1 = _normalize_tech_name s2.
Proof.
  intros H. unfold _normalize_tech_name. rewrite !first_steps_fold, H. reflexivity.
Qed.

Lemma normalize_folds_case_and_separators_witness :
  map_chars fold_char "Apache Tomcat" = map_chars fold_char "apache_tomcat"
  /\ _normalize_tech_name "Apache Tomcat" = _normalize_tech_name "apache_tomcat".
Proof.
  split; [reflexivity|].
  apply (normalize_folds_case_and_separators "Apache Tomcat" "apache_tomcat").
  reflexivity.
Defined.

(** ** Normalisation: the fixed points *)





(** ** The mapping: keys, order of the listing, empty directory *)

Lemma dict_mem_keys {V} (k : string) (d : Dict.t V) :
  Dict.mem k d = true <-> k ∈ Dict.keys d.
Proof.
  rewrite <- dict_get_keys. unfold Dict.mem. destruct (Dict.get k d).
  - split; [eexists; reflexivity|reflexivity].
  - split; [discriminate|intros [? [=]]].
Qed.

Lemma dict_mem_ext {V W} (k : string) (d : Dict.t V) (d' : Dict.t W) :
  Dict.keys d = Dict.keys d' -> Dict.mem k d = Dict.mem k d'.
Proof.
  intros H. destruct (Dict.mem k d') eqn:E.
  - apply dict_mem_keys. rewrite H. apply dict_mem_keys, E.
  - destruct (Dict.mem k d) eqn:E'; [|reflexivity].
    apply dict_mem_keys in E'. rewrite H in E'. apply dict_mem_keys in E'. congruence.
Qed.

Lemma dict_keys_set {V} (k : string) (v : V) (d : Dict.t V) :
  Dict.keys (Dict.set k v d)
  = if Dict.mem k d then Dict.keys d else (Dict.keys d ++ [k])%list.
Proof.
  unfold Dict.keys, Dict.mem. induction d as [|[k' v'] d IH]; cbn; [reflexivity|].
  destruct (String.eqb_spec k k') as [->|Hne]; cbn; [reflexivity|].
  rewrite IH. destruct (Dict.get k d); reflexivity.
Qed.

Lemma dict_elem_get {V} (k : string) (v : V) (d : Dict.t V) :
  NoDup (Dict.keys d) -> (k, v) ∈ d -> Dict.get k d = Some v.
Proof.
  unfold Dict.keys. induction d as [|[k' v'] d IH]; intros Hnd Hin; [inversion Hin|].
  cbn in Hnd. apply NoDup_cons in Hnd as [Hk Hnd]. cbn.
  apply elem_of_cons in Hin as [[= -> ->]|Hin].
  - rewrite String.eqb_refl. reflexivity.
  - destruct (String.eqb_spec k k') as [->|Hne]; [|apply IH; assumption].
    exfalso. apply Hk. apply list_elem_of_In, in_map_iff. exists (k', v).
    split; [reflexivity|apply list_elem_of_In, Hin].
Qed.

(** The keys after one file: a new technology goes last, a known one
    changes nothing, whatever the mode. *)
Lemma load_file_keys (mode dict_path : string) (d : tech_map) (name : string) :
  Dict.keys (load_file mode dict_path d name)
  = match pattern_match name with
    | Some (tech_name, _) =>
        if Dict.mem tech_name d then Dict.keys d else (Dict.keys d ++ [tech_name])%list
    | None => Dict.keys d
    end.
Proof.
  unfold load_file. destruct (pattern_match name) as [[tech ty]|]; [|reflexivity].
  cbn zeta. set (d1 := if Dict.mem tech d then d else Dict.set tech ∅ d).
  assert (Hk1 : Dict.keys d1
                = if Dict.mem tech d then Dict.keys d else (Dict.keys d ++ [tech])%list).
  { unfold d1. destruct (Dict.mem tech d) eqn:E; [reflexivity|].
    rewrite dict_keys_set, E. reflexivity. }
  assert (Hm1 : Dict.mem tech d1 = true).
  { apply dict_mem_keys. rewrite Hk1. destruct (Dict.mem tech d) eqn:E.
    - apply dict_mem_keys, E.
    - apply elem_of_app. right. left. }
  destruct (_ || _); [|exact Hk1].
  rewrite dict_keys_set, Hm1. exact Hk1.
Qed.

Lemma load_keys_from (mode mode' dict_path dict_path' : string) (files : list string) :
  forall d d' : tech_map,
    Dict.keys d = Dict.keys d' ->
    NoDup (Dict.keys d) ->
    Dict.keys (foldl (load_file mode dict_path) d files)
    = Dict.keys (foldl (load_file mode' dict_path') d' files)
    /\ NoDup (Dict.keys (foldl (load_file mode dict_path) d files)).
Proof.
  induction files as [|x files IH]; intros d d' Hk Hnd; [split; assumption|].
  cbn [foldl]. apply IH.
  - rewrite !load_file_keys. destruct (pattern_match x) as [[tech ty]|]; [|exact Hk].
    rewrite (dict_mem_ext tech d d' Hk), Hk. reflexivity.
  - rewrite load_file_keys. destruct (pattern_match x) as [[tech ty]|]; [|exact Hnd].
    destruct (Dict.mem tech d) eqn:E; [exact Hnd|].
    apply NoDup_app. split; [exact Hnd|]. split; [|apply NoDup_singleton].
    intros k Hin Hin'. apply list_elem_of_singleton in Hin'. subst k.
    apply dict_mem_keys in Hin. congruence.
Qed.

Lemma load_keys_NoDup (mode dict_path : string) (entries : list string) :
  NoDup (Dict.keys (load_directory mode dict_path entries)).
Proof.
  unfold load_directory.
  apply (load_keys_from mode mode dict_path dict_path (glob_txt entries) [] []);
    [reflexivity|constructor].
Qed.

(** X5: the technologies known after loading, and their order, do not
    depend on the mode or on the directory's path: only the stored
    paths do.  No technology is listed twice. *)
Theorem load_keys_mode_independent (mode mode' dict_path dict_path' : string)
    (entries : list string) :
  Dict.keys (load_directory mode dict_path entries)
  = Dict.keys (load_directory mode' dict_path' entries)
  /\ NoDup (Dict.keys (load_directory mode dict_path entries)).
Proof.
  unfold load_directory. apply load_keys_from; [reflexivity|constructor].
Qed.

Lemma load_entry_transfer (mode dict_path : string) (files files' : list string)
    (k : string) (e e' : entry) (dict_type p : string) :
  (forall name, name ∈ files -> name ∈ files') ->
  (forall name, name ∈ files -> endswith ".txt" name = true) ->
  (forall name, name ∈ files' -> endswith ".txt" name = true) ->
  Dict.get k (foldl (load_file mode dict_path) [] files) = Some e ->
  Dict.get k (foldl (load_file mode dict_path) [] files') = Some e' ->
  e !! dict_type = Some p -> e' !! dict_type = Some p.
Proof.
  intros Hsub Hglob Hglob' He He' Hp.
  destruct (load_entry_paths _ _ _ _ _ _ _ He Hp) as (-> & name & Hin & Hpm & ->).
  destruct (load_entry_has_mode mode dict_path files' k name (Hsub _ Hin) Hpm)
    as (e'' & He'' & [p' Hp']).
  rewrite He' in He''. injection He'' as <-. rewrite Hp'. f_equal.
  destruct (load_entry_paths _ _ _ _ _ _ _ He' Hp') as (_ & name' & Hin' & Hpm' & ->).
  apply pattern_match_convention in Hpm as (-> & _); [|apply Hglob, Hin].
  apply pattern_match_convention in Hpm' as (-> & _); [|apply Hglob', Hin'].
  reflexivity.
Qed.

(** X6: what the mapping holds for a technology does not depend on
    the order in which the directory is listed. *)
Theorem load_listing_order_irrelevant (mode dict_path : string)
    (entries entries' : list string) (k : string) :
  entries ≡ₚ entries' ->
  Dict.get k (load_directory mode dict_path entries)
  = Dict.get k (load_directory mode dict_path entries').
Proof.
  intros Hperm. unfold load_directory.
  assert (Hsub : forall l l' : list string, l ≡ₚ l' ->
            forall name, name ∈ glob_txt l -> name ∈ glob_txt l').
  { intros l l' Hp name [Hin Hg]%elem_of_glob_txt. apply elem_of_glob_txt.
    split; [rewrite <- Hp; exact Hin|exact Hg]. }
  assert (Hglob : forall l name, name ∈ glob_txt l -> endswith ".txt" name = true)
    by (intros l name [_ Hg]%elem_of_glob_txt; exact Hg).
  pose proof (load_get_is_Some mode dict_path (glob_txt entries) k) as H1.
  pose proof (load_get_is_Some mode dict_path (glob_txt entries') k) as H2.
  destruct (Dict.get k (foldl (load_file mode dict_path) [] (glob_txt entries)))
    as [e|] eqn:He;
  destruct (Dict.get k (foldl (load_file mode dict_path) [] (glob_txt entries')))
    as [e'|] eqn:He'.
  - f_equal. apply map_eq. intros ty.
    destruct (e !! ty) as [p|] eqn:Ep.
    + symmetry.
      apply (load_entry_transfer mode dict_path (glob_txt entries) (glob_txt entries')
               k e e' ty p (Hsub _ _ Hperm) (Hglob _) (Hglob _) He He' Ep).
    + destruct (e' !! ty) as [p'|] eqn:Ep'; [|reflexivity].
      rewrite <- Ep. symmetry in Hperm.
      apply (load_entry_transfer mode dict_path (glob_txt entries') (glob_txt entries)
               k e' e ty p' (Hsub _ _ Hperm) (Hglob _) (Hglob _) He' He Ep').
  - exfalso. destruct (proj1 H1) as (name & ty & Hin & Hpm); [eexists; reflexivity|].
    destruct (proj2 H2) as [? [=]]. exists name, ty. split; [|exact Hpm].
    apply (Hsub _ _ Hperm), Hin.
  - exfalso. destruct (proj1 H2) as (name & ty & Hin & Hpm); [eexists; reflexivity|].
    destruct (proj2 H1) as [? [=]]. exists name, ty. split; [|exact Hpm].
    apply (Hsub entries' entries); [symmetry; exact Hperm|exact Hin].
  - reflexivity.
Qed.

Lemma load_listing_order_irrelevant_witness :
  ["php_long.txt"; "nginx_long.txt"] ≡ₚ ["nginx_long.txt"; "php_long.txt"]
  /\ Dict.get "php" (load_directory "long" "dict" ["php_long.txt"; "nginx_long.txt"])
     = Dict.get "php" (load_directory "long" "dict" ["nginx_long.txt"; "php_long.txt"]).
Proof.
  split; [apply perm_swap|].
  apply (load_listing_order_irrelevant "long" "dict"
           ["php_long.txt"; "nginx_long.txt"] ["nginx_long.txt"; "php_long.txt"] "php").
  apply perm_swap.
Defined.

(** ** The lookup over a loaded directory *)

(** Where a result of the lookup comes from. *)
Lemma find_matching_branch_source (mode : string) (tech_to_dict : tech_map)
    (tech_name : string) (r : branch * string) :
  find_matching_branch mode tech_to_dict tech_name = Some r ->
  exists key e, (key, e) ∈ tech_to_dict
                /\ key_matches (_normalize_tech_name tech_name) key = true
                /\ select_branch mode e = Some r.
Proof.
  unfold find_matching_branch. cbn zeta.
  set (normalized := _normalize_tech_name tech_name).
  destruct (Dict.get normalized tech_to_dict) as [e|] eqn:Eg; cbn [mbind option_bind].
  - destruct (select_branch mode e) as [r'|] eqn:Es; [|apply find_loop_Some].
    intros [= ->]. exists normalized, e. split; [apply dict_get_elem, Eg|].
    split; [|exact Es]. unfold key_matches. rewrite String.eqb_refl. reflexivity.
  - apply find_loop_Some.
Qed.

Lemma file_path_nonempty (dict_path name : string) : file_path dict_path name <> "".
Proof. unfold file_path. destruct dict_path; discriminate. Qed.

(** X7: a path the lookup returns over a loaded directory is never
    empty and is always the path of the file <key>_<mode>.txt of that
    directory, for a key the normalised name matches; and a path is
    only ever returned when the mode is "short" or "long". *)
Theorem lookup_returns_directory_file (mode dict_path : string)
    (entries : list string) (tech_name p : string) :
  _find_matching_dict mode (load_directory mode dict_path entries) tech_name = Some p ->
  p <> ""
  /\ (mode = "short" \/ mode = "long")
  /\ exists key,
       key_matches (_normalize_tech_name tech_name) key = true
       /\ key ++ "_" ++ mode ++ ".txt" ∈ entries
       /\ p = file_path dict_path (key ++ "_" ++ mode ++ ".txt").
Proof.
  unfold _find_matching_dict.
  destruct (find_matching_branch mode (load_directory mode dict_path entries) tech_name)
    as [[b q]|] eqn:Hfind; [|discriminate].
  cbn. intros [= ->].
  apply find_matching_branch_source in Hfind as (key & e & Hin & Hm & Hsel).
  pose proof (load_directory_mode_only mode dict_path entries) as Hall.
  rewrite Forall_forall in Hall. specialize (Hall _ Hin). cbn in Hall.
  assert (Hp : e !! mode = Some p).
  { pose proof (select_branch_mode_only mode e b p Hall Hsel) as ->.
    unfold select_branch in Hsel. destruct (e !! mode) as [q|]; [congruence|].
    destruct (e !! "long"); [discriminate|]. destruct (e !! "short"); discriminate. }
  apply (dict_elem_get _ _ _ (load_keys_NoDup mode dict_path entries)) in Hin.
  unfold load_directory in Hin.
  destruct (load_entry_paths _ _ _ _ _ _ _ Hin Hp)
    as (_ & name & [Hname Hglob]%elem_of_glob_txt & Hpm & ->).
  apply pattern_match_convention in Hpm as (-> & Hty & _ & _); [|exact Hglob].
  split; [apply file_path_nonempty|]. split; [exact Hty|].
  exists key. repeat split; assumption.
Qed.

Lemma lookup_returns_directory_file_witness :
  _find_matching_dict "long"
    (load_directory "long" "dict" ["php-fpm_long.txt"; "php_short.txt"]) "PHP"
  = Some "dict/php-fpm_long.txt"
  /\ "dict/php-fpm_long.txt" <> "".
Proof.
  split; [reflexivity|].
  apply (lookup_returns_directory_file "long" "dict"
           ["php-fpm_long.txt"; "php_short.txt"] "PHP" "dict/php-fpm_long.txt").
  reflexivity.
Defined.

(** X8: a detected name that normalises to the empty string, such as
    "detect" or "_", matches every key: the lookup returns a wordlist
    as soon as any key of the mapping holds one. *)
Theorem empty_name_matches_every_key (mode : string) (tech_to_dict : tech_map)
    (tech_name : string) :
  _normalize_tech_name tech_name = "" ->
  (is_Some (_find_matching_dict mode tech_to_dict tech_name)
   <-> exists key e, (key, e) ∈ tech_to_dict /\ is_Some (select_branch mode e)).
Proof.
  intros Hempty. unfold _find_matching_dict. rewrite fmap_is_Some. split.
  - intros [r Hr]. apply find_matching_branch_source in Hr as (key & e & Hin & _ & Hs).
    exists key, e. split; [exact Hin|]. rewrite Hs. eexists. reflexivity.
  - intros (key & e & Hin & Hs). unfold find_matching_branch. cbn zeta.
    destruct (Dict.get (_normalize_tech_name tech_name) tech_to_dict
              ≫= select_branch mode); [eexists; reflexivity|].
    apply (find_loop_finds mode _ tech_to_dict key e Hin); [|exact Hs].
    rewrite Hempty. unfold key_matches. destruct key; reflexivity.
Qed.

Lemma empty_name_matches_every_key_witness :
  _normalize_tech_name "Detect" = ""
  /\ (is_Some (_find_matching_dict "long" two_wordlists "Detect")
      <-> exists key e, (key, e) ∈ two_wordlists /\ is_Some (select_branch "long" e)).
Proof.
  split; [reflexivity|].
  apply (empty_name_matches_every_key "long" two_wordlists "Detect"). reflexivity.
Defined.

(** X9: which wordlist a fuzzy match picks depends on the order in
    which the directory is listed: the lookup is not invariant under a
    reordering of the listing. *)
Theorem fuzzy_match_depends_on_listing_order :
  ~ (forall (mode dict_path : string) (entries entries' : list string)
            (tech_name : string),
       entries ≡ₚ entries' ->
       _find_matching_dict mode (load_directory mode dict_path entries) tech_name
       = _find_matching_dict mode (load_directory mode dict_path entries') tech_name).
Proof.
  intros H.
  specialize (H "long" "dict" ["php-fpm_long.txt"; "php-cgi_long.txt"]
                ["php-cgi_long.txt"; "php-fpm_long.txt"] "php" (perm_swap _ _ _)).
  vm_compute in H. discriminate H.
Qed.

Lemma process_techs_no_wordlist (mode : string) (occurrence : Z) (url : string)
    (ffuf : string -> string -> proc_outcome ffuf_file) (techs : list string) :
  forall st, process_techs mode occurrence [] url ffuf st techs = Return st.
Proof. induction techs as [|tech techs IH]; intros st; [reflexivity|]. cbn. apply IH. Qed.

(** X10: when the dictionary directory holds no file the pattern
    accepts, the mapping is empty, every lookup fails, and for any
    detected technologies the loop launches no ffuf run and saves no
    report. *)
Theorem no_wordlists_nothing_fuzzed (mode dict_path : string) (entries : list string) :
  no_wordlist_files entries = true ->
  load_directory mode dict_path entries = []
  /\ (forall tech_name,
        _find_matching_dict mode (load_directory mode dict_path entries) tech_name = None)
  /\ (forall occurrence url ffuf techs,
        process_detected mode occurrence (load_directory mode dict_path entries)
          url ffuf techs = Return None
        /\ process_techs mode occurrence (load_directory mode dict_path entries)
             url ffuf initial_state techs = Return initial_state).
Proof.
  intros Hnone.
  assert (Hload : load_directory mode dict_path entries = []).
  { unfold load_directory, no_wordlist_files in *.
    induction (glob_txt entries) as [|x files IH] using rev_ind; [reflexivity|].
    rewrite forallb_app in Hnone. apply andb_true_iff in Hnone as [H1 H2].
    rewrite foldl_snoc, (IH H1). cbn in H2. unfold load_file.
    destruct (pattern_match x); [discriminate|reflexivity]. }
  rewrite Hload. split; [reflexivity|]. split; [reflexivity|].
  intros occurrence url ffuf techs.
  pose proof (process_techs_no_wordlist mode occurrence url ffuf techs initial_state) as Hl.
  split; [|exact Hl]. unfold process_detected. destruct techs; [reflexivity|].
  rewrite Hl. reflexivity.
Qed.

Lemma no_wordlists_nothing_fuzzed_witness :
  no_wordlist_files ["README.md"; "notes.txt"; "_long.txt"] = true
  /\ load_directory "long" "dict" ["README.md"; "notes.txt"; "_long.txt"] = [].
Proof.
  split; [reflexivity|].
  apply (no_wordlists_nothing_fuzzed "long" "dict" ["README.md"; "notes.txt"; "_long.txt"]).
  reflexivity.
Defined.

(** ** The occurrence filter: thresholds, order, repetition *)

Lemma occurrences_pos (results : list record) (r : record) :
  r ∈ results -> 1 <= occurrences results r.
Proof.
  intros Hin. unfold occurrences.
  assert (H : r ∈ filter (fun r' => result_length r' = result_length r) results)
    by (apply list_elem_of_filter; split; [reflexivity|exact Hin]).
  destruct (filter _ results); [inversion H|cbn; lia].
Qed.

Lemma occurrences_le_length (results : list record) (r : record) :
  occurrences results r <= length results.
Proof. unfold occurrences. apply length_filter. Qed.

Lemma occurrences_same_length (results : list record) (r r' : record) :
  result_length r = result_length r' -> occurrences results r = occurrences results r'.
Proof. intros H. unfold occurrences. rewrite H. reflexivity. Qed.

Lemma result_length_with_count (results : list record) (r : record) :
  result_length (with_count results r) = result_length r.
Proof.
  unfold result_length, with_count. rewrite lookup_insert_ne by discriminate. reflexivity.
Qed.

Lemma filter_none {A : Type} (P : A -> Prop) `{!forall x, Decision (P x)} (l : list A) :
  (forall x, x ∈ l -> ~ P x) -> filter P l = [].
Proof.
  induction l as [|a l IH]; intros Hnot; [reflexivity|].
  rewrite filter_cons_False by (apply Hnot; left).
  apply IH. intros x Hx. apply Hnot. right. exact Hx.
Qed.

Lemma filter_all {A : Type} (P : A -> Prop) `{!forall x, Decision (P x)} (l : list A) :
  (forall x, x ∈ l -> P x) -> filter P l = l.
Proof.
  induction l as [|a l IH]; intros Hall; [reflexivity|].
  rewrite filter_cons_True by (apply Hall; left). f_equal.
  apply IH. intros x Hx. apply Hall. right. exact Hx.
Qed.

(** When a record of the input makes it to the output. *)
Lemma with_count_in_output (occurrence : Z) (results : list record) (r : record) :
  r ∈ results ->
  with_count results r ∈ analyze_results occurrence results
  <-> (Z.of_nat (occurrences results r) <= occurrence)%Z.
Proof.
  intros Hr. rewrite analyze_results_filter_map. split.
  - intros Hin. apply list_elem_of_In, in_map_iff in Hin as (r' & Hr' & Hin').
    apply list_elem_of_In, list_elem_of_filter in Hin' as [Hle _].
    rewrite <- (occurrences_same_length results r' r); [exact Hle|].
    rewrite <- (result_length_with_count results r'), Hr'.
    apply result_length_with_count.
  - intros Hle. apply list_elem_of_In, in_map_iff. exists r. split; [reflexivity|].
    apply list_elem_of_In, list_elem_of_filter. split; assumption.
Qed.

Lemma analyze_results_below_one (occurrence : Z) (results : list record) :
  (occurrence < 1)%Z -> analyze_results occurrence results = [].
Proof.
  intros Hlow. rewrite analyze_results_filter_map.
  rewrite filter_none; [reflexivity|].
  intros r Hr. pose proof (occurrences_pos results r Hr). lia.
Qed.

(** X11: with a threshold below 1 the filter keeps nothing, whatever
    the input: every record shares its length with itself. *)
Theorem threshold_below_one_keeps_nothing (occurrence : Z) (results : list record) :
  (occurrence < 1)%Z ->
  analyze_results occurrence results = []
  /\ forall r, r ∈ results -> (occurrence < Z.of_nat (occurrences results r))%Z.
Proof.
  intros Hlow. split; [apply analyze_results_below_one, Hlow|].
  intros r Hr. pose proof (occurrences_pos results r Hr). lia.
Qed.

Lemma threshold_below_one_keeps_nothing_witness :
  (0 < 1)%Z
  /\ analyze_results 0 [<["length" := VInt 5]> ∅; <["length" := VInt 7]> (∅ : record)] = [].
Proof.
  split; [reflexivity|].
  apply (threshold_below_one_keeps_nothing 0
           [<["length" := VInt 5]> ∅; <["length" := VInt 7]> ∅]).
  reflexivity.
Defined.

(** X12: with a threshold of at least the number of records the
    filter drops nothing: the output is the input, each record with its
    count. *)
Theorem threshold_at_least_length_keeps_all (occurrence : Z) (results : list record) :
  (Z.of_nat (length results) <= occurrence)%Z ->
  analyze_results occurrence results = map (with_count results) results.
Proof.
  intros Hhigh. rewrite analyze_results_filter_map.
  rewrite filter_all; [reflexivity|].
  intros r _. pose proof (occurrences_le_length results r). lia.
Qed.

Lemma threshold_at_least_length_keeps_all_witness :
  (Z.of_nat (length [<["length" := VInt 5]> ∅; <["length" := VInt 5]> (∅ : record)]) <= 2)%Z
  /\ length (analyze_results 2 [<["length" := VInt 5]> ∅; <["length" := VInt 5]> ∅]) = 2.
Proof.
  split; [cbn; lia|].
  rewrite (threshold_at_least_length_keeps_all 2
             [<["length" := VInt 5]> ∅; <["length" := VInt 5]> ∅]); [reflexivity|].
  cbn. lia.
Defined.

Lemma sublist_map {A B : Type} (f : A -> B) (l1 l2 : list A) :
  l1 `sublist_of` l2 -> map f l1 `sublist_of` map f l2.
Proof. induction 1; cbn; constructor; assumption. Qed.

(** X13: raising the threshold only adds records: what is kept at a
    threshold is, in the same order, among what is kept at any larger
    one. *)
Theorem analyze_results_monotone (occurrence occurrence' : Z) (results : list record) :
  (occurrence <= occurrence')%Z ->
  analyze_results occurrence results `sublist_of` analyze_results occurrence' results.
Proof.
  intros Hle. rewrite !analyze_results_filter_map. apply sublist_map.
  rewrite <- (list_filter_filter_l
                (fun r => (Z.of_nat (occurrences results r) <= occurrence)%Z)
                (fun r => (Z.of_nat (occurrences results r) <= occurrence')%Z) results)
    by (intros r Hr; lia).
  apply sublist_filter.
Qed.

Lemma analyze_results_monotone_witness :
  (1 <= 2)%Z
  /\ analyze_results 1 [<["length" := VInt 5]> ∅; <["length" := VInt 5]> (∅ : record)]
     `sublist_of`
     analyze_results 2 [<["length" := VInt 5]> ∅; <["length" := VInt 5]> ∅].
Proof.
  split; [lia|].
  apply (analyze_results_monotone 1 2
           [<["length" := VInt 5]> ∅; <["length" := VInt 5]> ∅]).
  lia.
Defined.

(** X14: records of one length stand or fall together: two records of
    the input with the same length are both kept or both dropped, and
    then carry the same count. *)
Theorem same_length_same_fate (occurrence : Z) (results : list record) (r1 r2 : record) :
  r1 ∈ results -> r2 ∈ results ->
  result_length r1 = result_length r2 ->
  occurrences results r1 = occurrences results r2
  /\ (with_count results r1 ∈ analyze_results occurrence results
      <-> with_count results r2 ∈ analyze_results occurrence results).
Proof.
  intros H1 H2 Hlen. pose proof (occurrences_same_length results r1 r2 Hlen) as Hocc.
  split; [exact Hocc|].
  rewrite (with_count_in_output occurrence results r1 H1).
  rewrite (with_count_in_output occurrence results r2 H2).
  rewrite Hocc. reflexivity.
Qed.


Lemma same_length_same_fate_witness :
  occurrences sample_results (<["length" := VInt 5]> (<["url" := VStr "/a"]> ∅))
  = occurrences sample_results (<["length" := VInt 5]> (<["url" := VStr "/b"]> ∅)).
Proof.
  apply (same_length_same_fate 1 sample_results
           (<["length" := VInt 5]> (<["url" := VStr "/a"]> ∅))
           (<["length" := VInt 5]> (<["url" := VStr "/b"]> ∅))).
  - left.
  - right. left.
  - reflexivity.
Defined.

(** X15: a record without a "length" field is counted with the
    records whose length is 0: in any input that holds both, the two
    have the same count and are kept or dropped together. *)
Theorem missing_length_counts_as_zero (occurrence : Z) (results : list record)
    (r1 r2 : record) :
  r1 !! "length" = None ->
  r2 !! "length" = Some (VInt 0) ->
  r1 ∈ results -> r2 ∈ results ->
  2 <= occurrences results r1
  /\ occurrences results r1 = occurrences results r2
  /\ (with_count results r1 ∈ analyze_results occurrence results
      <-> with_count results r2 ∈ analyze_results occurrence results).
Proof.
  intros Hnone Hzero H1 H2.
  assert (Hlen : result_length r1 = result_length r2)
    by (unfold result_length; rewrite Hnone, Hzero; reflexivity).
  pose proof (occurrences_same_length results r1 r2 Hlen) as Hocc.
  split; [|split; [exact Hocc|]].
  - unfold occurrences.
    assert (Hne : r1 <> r2) by (intros ->; congruence).
    assert (Hsub : [r1; r2] ⊆ filter (fun r' => result_length r' = result_length r1) results).
    { intros x Hx. apply list_elem_of_filter.
      apply elem_of_cons in Hx as [->|Hx]; [split; [reflexivity|exact H1]|].
      apply list_elem_of_singleton in Hx. subst x. split; [symmetry; exact Hlen|exact H2]. }
    assert (Hnd : NoDup [r1; r2]).
    { apply NoDup_cons. split; [|apply NoDup_singleton].
      intros Hin. apply list_elem_of_singleton in Hin. contradiction. }
    apply (submseteq_length [r1; r2]). apply NoDup_submseteq; assumption.
  - rewrite (with_count_in_output occurrence results r1 H1).
    rewrite (with_count_in_output occurrence results r2 H2).
    rewrite Hocc. reflexivity.
Qed.

Lemma missing_length_counts_as_zero_witness :
  2 <= occurrences sample_results (<["url" := VStr "/c"]> ∅).
Proof.
  apply (missing_length_counts_as_zero 1 sample_results
           (<["url" := VStr "/c"]> ∅)
           (<["length" := VInt 0]> (<["url" := VStr "/d"]> ∅))).
  - reflexivity.
  - reflexivity.
  - right. right. left.
  - right. right. right. left.
Defined.

Lemma filter_map_comm {A B : Type} (f : A -> B) (Q : B -> Prop)
    `{!forall y, Decision (Q y)} (l : list A) :
  filter Q (map f l) = map f (filter (fun x => Q (f x)) l).
Proof.
  induction l as [|a l IH]; [reflexivity|]. cbn [map].
  destruct (decide (Q (f a))) as [Hq|Hq].
  - rewrite !filter_cons_True by exact Hq. cbn [map]. rewrite IH. reflexivity.
  - rewrite !filter_cons_False by exact Hq. exact IH.
Qed.

(** Among the kept records a kept record has the count it had in the
    input: its whole length class was kept with it. *)
Lemma occurrences_in_output (occurrence : Z) (results : list record) (r : record) :
  (Z.of_nat (occurrences results r) <= occurrence)%Z ->
  occurrences (analyze_results occurrence results) (with_count results r)
  = occurrences results r.
Proof.
  intros Hle. rewrite analyze_results_filter_map. unfold occurrences at 1.
  rewrite filter_map_comm, length_map.
  rewrite (list_filter_iff _ (fun r' => result_length r' = result_length r)).
  - rewrite list_filter_filter_l; [reflexivity|].
    intros r' Hr'. rewrite (occurrences_same_length results r' r Hr'). exact Hle.
  - intros r'. rewrite !result_length_with_count. reflexivity.
Qed.

(** X16: the filter is idempotent: filtering its own output with the
    same threshold changes nothing, neither the records kept nor their
    counts. *)
Theorem analyze_results_idempotent (occurrence : Z) (results : list record) :
  analyze_results occurrence (analyze_results occurrence results)
  = analyze_results occurrence results.
Proof.
  rewrite (analyze_results_filter_map occurrence (analyze_results occurrence results)).
  assert (Hkept : forall out, out ∈ analyze_results occurrence results ->
            exists r, out = with_count results r
                      /\ (Z.of_nat (occurrences results r) <= occurrence)%Z).
  { intros out Hout. rewrite analyze_results_filter_map in Hout.
    apply list_elem_of_In, in_map_iff in Hout as (r & <- & Hin).
    apply list_elem_of_In, list_elem_of_filter in Hin as [Hle _].
    exists r. split; [reflexivity|exact Hle]. }
  rewrite filter_all.
  - transitivity (map (fun x : record => x) (analyze_results occurrence results));
      [|apply map_id].
    apply map_ext_in. intros out Hout%list_elem_of_In.
    destruct (Hkept out Hout) as (r & -> & Hle).
    unfold with_count at 1. rewrite (occurrences_in_output occurrence results r Hle).
    unfold with_count. apply insert_insert_eq.
  - intros out Hout. destruct (Hkept out Hout) as (r & -> & Hle).
    rewrite (occurrences_in_output occurrence results r Hle). exact Hle.
Qed.

(** X17: the count a kept record carries is at least 1, at most the
    threshold, and at most the number of records of the input. *)
Theorem occurrence_count_bounds (occurrence : Z) (results : list record) (out : record) :
  out ∈ analyze_results occurrence results ->
  exists n : nat,
    out !! "occurrence_count" = Some (VInt (Z.of_nat n))
    /\ 1 <= n /\ (Z.of_nat n <= occurrence)%Z /\ n <= length results.
Proof.
  rewrite analyze_results_filter_map. intros Hout.
  apply list_elem_of_In, in_map_iff in Hout as (r & <- & Hin).
  apply list_elem_of_In, list_elem_of_filter in Hin as [Hle Hr].
  exists (occurrences results r). split; [apply lookup_insert_eq|].
  split; [apply occurrences_pos, Hr|]. split; [exact Hle|apply occurrences_le_length].
Qed.

Lemma occurrence_count_bounds_witness :
  exists n : nat,
    with_count sample_results (<["url" := VStr "/c"]> ∅) !! "occurrence_count"
    = Some (VInt (Z.of_nat n))
    /\ 1 <= n /\ (Z.of_nat n <= 2)%Z /\ n <= length sample_results.
Proof.
  apply (occurrence_count_bounds 2 sample_results
           (with_count sample_results (<["url" := VStr "/c"]> ∅))).
  apply with_count_in_output; [right; right; left|].
  vm_compute. discriminate.
Defined.

Lemma occurrences_Permutation (results results' : list record) (r : record) :
  results ≡ₚ results' -> occurrences results r = occurrences results' r.
Proof. intros H. unfold occurrences. rewrite H. reflexivity. Qed.

(** X18: the filter treats its input as a multiset: a reordering of
    the input gives the same reordering of the output, with the same
    counts. *)
Theorem analyze_results_Permutation (occurrence : Z) (results results' : list record) :
  results ≡ₚ results' ->
  analyze_results occurrence results ≡ₚ analyze_results occurrence results'.
Proof.
  intros Hperm. rewrite !analyze_results_filter_map.
  rewrite (map_ext (with_count results) (with_count results'))
    by (intros r; unfold with_count;
        rewrite (occurrences_Permutation results results' r Hperm); reflexivity).
  apply Permutation_map.
  rewrite (list_filter_iff
             (fun r => (Z.of_nat (occurrences results r) <= occurrence)%Z)
             (fun r => (Z.of_nat (occurrences results' r) <= occurrence)%Z))
    by (intros r; rewrite (occurrences_Permutation results results' r Hperm); reflexivity).
  rewrite Hperm. reflexivity.
Qed.

Lemma analyze_results_Permutation_witness :
  [<["length" := VInt 5]> ∅; <["length" := VInt 7]> (∅ : record)]
  ≡ₚ [<["length" := VInt 7]> ∅; <["length" := VInt 5]> (∅ : record)]
  /\ analyze_results 1 [<["length" := VInt 5]> ∅; <["length" := VInt 7]> (∅ : record)]
     ≡ₚ analyze_results 1 [<["length" := VInt 7]> ∅; <["length" := VInt 5]> (∅ : record)].
Proof.
  split; [apply perm_swap|].
  apply (analyze_results_Permutation 1
           [<["length" := VInt 5]> ∅; <["length" := VInt 7]> ∅]
           [<["length" := VInt 7]> ∅; <["length" := VInt 5]> ∅]).
  apply perm_swap.
Defined.

(** ** Detection output and ffuf outcomes *)






(** ** The per-URL loop: runs launched, records saved, ways to end *)

Section LoopFacts.

Variable mode : string.
Variable occurrence : Z.
Variable tech_to_dict : tech_map.
Variable url : string.
Variable ffuf : string -> string -> proc_outcome ffuf_file.

(** Whenever the loop runs to its end, with or without results. *)
Lemma process_techs_returned (techs : list string) :
  forall st st',
    process_techs mode occurrence tech_to_dict url ffuf st techs = Return st' ->
    all_results st'
    = (all_results st ++ per_tech_results mode occurrence tech_to_dict ffuf techs)%list
    /\ launched st'
       = (launched st ++ map (fun x => (x.2, x.1)) (fuzzed mode tech_to_dict techs))%list.
Proof.
  induction techs as [|tech techs IH]; intros st st'.
  - cbn. intros [= <-]. rewrite !app_nil_r. split; reflexivity.
  - cbn [process_techs]. rewrite process_tech_eq.
    unfold per_tech_results in *. rewrite fuzzed_cons.
    destruct (tech_wordlist mode tech_to_dict tech) as [p|].
    + destruct (run_ffuf (ffuf p tech)) as [results| |] eqn:Erun;
        cbn [mbind py_result_bind]; [|discriminate|discriminate].
      intros Hloop. destruct (IH _ _ Hloop) as [Hall Hl].
      rewrite Hall, Hl, record_run_all_results, record_run_launched.
      cbn [map concat fst snd]. rewrite Erun. cbn [returned].
      rewrite <- !app_assoc. split; reflexivity.
    + cbn [mbind py_result_bind]. apply IH.
Qed.


Lemma fuzzed_sublist (techs : list string) :
  map fst (fuzzed mode tech_to_dict techs) `sublist_of` techs.
Proof.
  induction techs as [|tech techs IH]; [constructor|]. rewrite fuzzed_cons.
  destruct (tech_wordlist mode tech_to_dict tech); cbn [map fst]; constructor; exact IH.
Qed.

Lemma elem_of_fuzzed (techs : list string) (tech dict_path : string) :
  (tech, dict_path) ∈ fuzzed mode tech_to_dict techs
  <-> tech ∈ techs /\ tech_wordlist mode tech_to_dict tech = Some dict_path.
Proof.
  induction techs as [|t techs IH].
  - split; [intros H; inversion H|intros [H _]; inversion H].
  - rewrite fuzzed_cons. destruct (tech_wordlist mode tech_to_dict t) as [p|] eqn:Ew.
    + rewrite !elem_of_cons, IH. split.
      * intros [[= -> ->]|[H1 H2]]; [split; [left; reflexivity|exact Ew]|].
        split; [right; exact H1|exact H2].
      * intros [[->|H1] H2]; [left; congruence|right; split; assumption].
    + rewrite IH, elem_of_cons. split.
      * intros [H1 H2]. split; [right; exact H1|exact H2].
      * intros [[->|H1] H2]; [congruence|split; assumption].
Qed.

End LoopFacts.

Lemma tech_wordlist_found (mode : string) (tech_to_dict : tech_map)
    (tech dict_path : string) :
  tech_wordlist mode tech_to_dict tech = Some dict_path ->
  _find_matching_dict mode tech_to_dict tech = Some dict_path /\ dict_path <> "".
Proof.
  unfold tech_wordlist. destruct (_find_matching_dict mode tech_to_dict tech) as [p|];
    [|discriminate].
  destruct (String.eqb_spec p ""); [discriminate|]. intros [= <-]. split; [reflexivity|assumption].
Qed.

(** X21: when the loop over the detected technologies runs to its
    end it has launched ffuf once for each technology the lookup gives
    a wordlist, with that wordlist and in the order of the iteration,
    and for no other technology; no technology is fuzzed twice. *)
Theorem loop_launches_once_per_wordlist (mode : string) (occurrence : Z)
    (tech_to_dict : tech_map) (url : string)
    (ffuf : string -> string -> proc_outcome ffuf_file)
    (techs : list string) (st : loop_state) :
  NoDup techs ->
  process_techs mode occurrence tech_to_dict url ffuf initial_state techs = Return st ->
  launched st = map (fun x => (x.2, x.1)) (fuzzed mode tech_to_dict techs)
  /\ NoDup (map snd (launched st))
  /\ length (launched st) <= length techs
  /\ (forall dict_path tech,
        (dict_path, tech) ∈ launched st
        <-> tech ∈ techs
            /\ _find_matching_dict mode tech_to_dict tech = Some dict_path
            /\ dict_path <> "").
Proof.
  intros Hnd Hloop.
  destruct (process_techs_returned _ _ _ _ _ _ _ _ Hloop) as [_ Hl].
  cbn [initial_state launched app] in Hl.
  pose proof (fuzzed_sublist mode tech_to_dict techs) as Hsub.
  assert (Hsnd : map snd (launched st) = map fst (fuzzed mode tech_to_dict techs)).
  { rewrite Hl, map_map. apply map_ext. intros [t p]. reflexivity. }
  split; [exact Hl|]. split; [|split].
  - rewrite Hsnd. eapply sublist_NoDup; eassumption.
  - rewrite <- (length_map snd), Hsnd. apply sublist_length, Hsub.
  - intros p tech. rewrite Hl. split.
    + intros Hin. apply list_elem_of_In, in_map_iff in Hin as ([t q] & [= <- <-] & Hin).
      apply list_elem_of_In, elem_of_fuzzed in Hin as [Ht Hw].
      split; [exact Ht|apply (tech_wordlist_found _ _ _ _ Hw)].
    + intros (Ht & Hfind & Hne). apply list_elem_of_In, in_map_iff. exists (tech, p).
      split; [reflexivity|]. apply list_elem_of_In, elem_of_fuzzed. split; [exact Ht|].
      unfold tech_wordlist. rewrite Hfind.
      destruct (String.eqb_spec p ""); [contradiction|reflexivity].
Qed.

Lemma loop_launches_once_per_wordlist_witness :
  NoDup ["php"; "nginx"; "iis"]
  /\ length (launched (record_run 1 "http://target"
                (record_run 1 "http://target" initial_state "php" "dict/php_long.txt"
                   (returned (run_ffuf (one_page "dict/php_long.txt" "php"))))
                "nginx" "dict/nginx_long.txt"
                (returned (run_ffuf (one_page "dict/nginx_long.txt" "nginx")))))
     <= 3.
Proof.
  assert (Hnd : NoDup ["php"; "nginx"; "iis"]).
  { repeat (apply NoDup_cons; split; [|]); [| |intros H; inversion H|constructor].
    - intros H. apply elem_of_cons in H as [H|H]; [discriminate H|].
      apply list_elem_of_singleton in H. discriminate H.
    - intros H. apply list_elem_of_singleton in H. discriminate H. }
  split; [exact Hnd|].
  apply (loop_launches_once_per_wordlist "long" 1 two_wordlists "http://target" one_page
           ["php"; "nginx"; "iis"] _ Hnd).
  reflexivity.
Defined.


Lemma elem_of_per_tech_results (mode : string) (occurrence : Z) (tech_to_dict : tech_map)
    (ffuf : string -> string -> proc_outcome ffuf_file) (techs : list string) (r : record) :
  r ∈ per_tech_results mode occurrence tech_to_dict ffuf techs ->
  exists tech dict_path out,
    tech ∈ techs
    /\ tech_wordlist mode tech_to_dict tech = Some dict_path
    /\ out ∈ analyze_results occurrence (returned (run_ffuf (ffuf dict_path tech)))
    /\ r = annotate tech dict_path out.
Proof.
  unfold per_tech_results. intros Hr.
  apply list_elem_of_In, in_concat in Hr as (l & Hl & Hr).
  apply in_map_iff in Hl as ([tech p] & <- & Hin).
  apply in_map_iff in Hr as (out & <- & Hout).
  apply list_elem_of_In, elem_of_fuzzed in Hin as [Ht Hw].
  exists tech, p, out. split; [exact Ht|]. split; [exact Hw|].
  split; [apply list_elem_of_In, Hout|reflexivity].
Qed.

(** X22: every record of a saved report names a detected technology
    in its "tech" field and, in "dict_used", the file name of the
    wordlist the lookup gave for that technology, and carries an
    "occurrence_count" between 1 and the threshold; a saved report is
    never empty. *)
Theorem saved_records_annotated (mode : string) (occurrence : Z)
    (tech_to_dict : tech_map) (url : string)
    (ffuf : string -> string -> proc_outcome ffuf_file)
    (techs : list string) (rep : report) :
  process_detected mode occurrence tech_to_dict url ffuf techs = Return (Some rep) ->
  report_results rep <> []
  /\ forall r, r ∈ report_results rep ->
       exists tech dict_path n,
         tech ∈ techs
         /\ _find_matching_dict mode tech_to_dict tech = Some dict_path
         /\ r !! "tech" = Some (VStr tech)
         /\ r !! "dict_used" = Some (VStr (path_name dict_path))
         /\ r !! "occurrence_count" = Some (VInt n)
         /\ (1 <= n <= occurrence)%Z.
Proof.
  unfold process_detected. destruct techs as [|tech0 techs0]; [discriminate|].
  set (techs := tech0 :: techs0).
  destruct (process_techs mode occurrence tech_to_dict url ffuf initial_state techs)
    as [st| |] eqn:Hloop; cbn [mbind py_result_bind]; [|discriminate|discriminate].
  destruct (process_techs_returned _ _ _ _ _ _ _ _ Hloop) as [Hall _].
  cbn [initial_state all_results app] in Hall.
  destruct (all_results st) as [|r0 rs] eqn:Eall; [discriminate|].
  intros [= <-]. cbn [_save_results report_results]. split; [discriminate|].
  rewrite Hall. intros r Hr.
  apply elem_of_per_tech_results in Hr as (tech & p & out & Ht & Hw & Hout & ->).
  rewrite analyze_results_filter_map in Hout.
  apply list_elem_of_In, in_map_iff in Hout as (r1 & <- & Hin).
  apply list_elem_of_In, list_elem_of_filter in Hin as [Hle Hr1].
  exists tech, p, (Z.of_nat (occurrences (returned (run_ffuf (ffuf p tech))) r1)).
  split; [exact Ht|]. split; [apply (tech_wordlist_found _ _ _ _ Hw)|].
  unfold annotate, with_count. split; [|split; [|split]].
  - rewrite lookup_insert_ne by discriminate. apply lookup_insert_eq.
  - apply lookup_insert_eq.
  - rewrite !lookup_insert_ne by discriminate. apply lookup_insert_eq.
  - pose proof (occurrences_pos _ _ Hr1). lia.
Qed.

Lemma saved_records_annotated_witness : report_results two_wordlists_report <> [].
Proof.
  apply (saved_records_annotated "long" 1 two_wordlists "http://target" one_page
           ["php"; "nginx"] two_wordlists_report).
  reflexivity.
Defined.


Lemma per_tech_results_below_one (mode : string) (occurrence : Z)
    (tech_to_dict : tech_map) (ffuf : string -> string -> proc_outcome ffuf_file)
    (techs : list string) :
  (occurrence < 1)%Z -> per_tech_results mode occurrence tech_to_dict ffuf techs = [].
Proof.
  intros Hlow. unfold per_tech_results.
  induction (fuzzed mode tech_to_dict techs) as [|[tech p] l IH]; [reflexivity|].
  cbn [map concat]. rewrite IH, (analyze_results_below_one _ _ Hlow). reflexivity.
Qed.

(** X24: with a threshold below 1 no report is ever saved for a URL,
    whatever is detected and whatever ffuf finds. *)
Theorem threshold_below_one_saves_nothing (mode : string) (occurrence : Z)
    (tech_to_dict : tech_map) (url : string)
    (ffuf : string -> string -> proc_outcome ffuf_file) (techs : list string) :
  (occurrence < 1)%Z ->
  final_results (process_detected mode occurrence tech_to_dict url ffuf techs) = []
  /\ forall rep,
       process_detected mode occurrence tech_to_dict url ffuf techs <> Return (Some rep).
Proof.
  intros Hlow.
  assert (Hno : forall rep,
            process_detected mode occurrence tech_to_dict url ffuf techs
            <> Return (Some rep)).
  { intros rep. unfold process_detected. destruct techs as [|t techs]; [discriminate|].
    destruct (process_techs mode occurrence tech_to_dict url ffuf initial_state (t :: techs))
      as [st| |] eqn:Hloop; cbn [mbind py_result_bind]; [|discriminate|discriminate].
    destruct (process_techs_returned _ _ _ _ _ _ _ _ Hloop) as [Hall _].
    rewrite (per_tech_results_below_one _ _ _ _ _ Hlow) in Hall.
    cbn in Hall. rewrite Hall. discriminate. }
  split; [|exact Hno].
  destruct (process_detected mode occurrence tech_to_dict url ffuf techs)
    as [[rep|]| |] eqn:E; try reflexivity.
  exfalso. apply (Hno rep). reflexivity.
Qed.

Lemma threshold_below_one_saves_nothing_witness :
  (0 < 1)%Z
  /\ final_results
       (process_detected "long" 0 two_wordlists "http://target" one_page ["php"; "nginx"])
     = [].
Proof.
  split; [reflexivity|].
  apply (threshold_below_one_saves_nothing "long" 0 two_wordlists "http://target"
           one_page ["php"; "nginx"]).
  reflexivity.
Defined.

(** ** The report's file name *)

Lemma safe_url_no_slash (url : string) :
  PyStr.all_chars (PyStr.is_not "/") (safe_url url) = true.
Proof.
  unfold safe_url. apply all_chars_replace; [|reflexivity].
  apply replace_char_excluded. reflexivity.
Qed.

Lemma safe_url_no_colon (url : string) :
  PyStr.all_chars (PyStr.is_not ":") (safe_url url) = true.
Proof. unfold safe_url. apply replace_char_excluded. reflexivity. Qed.

(** X25: the name of the report file holds neither a slash nor a
    colon, whatever the URL, so the report is written into the current
    directory; but different URLs can get the same file name, the later
    report then replacing the earlier. *)
Theorem output_file_flat_not_injective :
  (forall url,
     PyStr.all_chars (PyStr.is_not "/") (output_file url) = true
     /\ PyStr.all_chars (PyStr.is_not ":") (output_file url) = true)
  /\ ~ (forall url url', output_file url = output_file url' -> url = url').
Proof.
  split.
  - intros url. unfold output_file. rewrite !all_chars_app.
    rewrite safe_url_no_slash, safe_url_no_colon. split; reflexivity.
  - intros H. specialize (H "http://host/a/b" "http://host/a_b" eq_refl). discriminate H.
Qed.

(** ** The loop over the URLs *)

(** The loop over the URLs cannot get past its first URL: over any
    non-empty list it ends in the AttributeError of the detection,
    before any ffuf run and without a report; only over the empty list
    does it complete. *)
Lemma run_stops_at_first_url (mode : string) (occurrence : Z)
    (tech_to_dict : tech_map) (nuclei_templates_path : string)
    (fs_exists : string -> bool)
    (ffuf : string -> string -> string -> proc_outcome ffuf_file)
    (nuclei : string -> proc_outcome nuclei_output) (urls : list string) :
  run mode occurrence tech_to_dict nuclei_templates_path fs_exists ffuf nuclei urls
  = match urls with
    | [] => Return []
    | _ :: _ => Raise AttributeError
    end.
Proof. destruct urls as [|url urls]; reflexivity. Qed.

(** ** The URL arguments *)

Lemma lstrip_space_head (s : string) :
  match lstrip_space s with
  | EmptyString => True
  | String a _ => is_space a = false
  end.
Proof.
  induction s as [|a s IH]; [exact I|]. cbn [lstrip_space].
  destruct (is_space a) eqn:E; [exact IH|exact E].
Qed.






(** ** Provisioning the repositories *)

Lemma rmtree_then_clone_block (parent_exists target_exists : bool)
    (parent_dir target : path) (repo : string) (rest : list action) :
  rmtree_then_clone (clone_block parent_exists target_exists parent_dir target repo ++ rest)
  = rmtree_then_clone rest.
Proof.
  unfold clone_block. destruct parent_exists, target_exists; cbn;
    rewrite ?bool_decide_eq_true_2 by reflexivity; reflexivity.
Qed.

Lemma clones_block (parent_exists target_exists : bool) (parent_dir target : path)
    (repo : string) :
  clones (clone_block parent_exists target_exists parent_dir target repo)
  = [(repo, target)].
Proof. unfold clone_block. destruct parent_exists, target_exists; reflexivity. Qed.

Lemma clone_block_nonempty (parent_exists target_exists : bool)
    (parent_dir target : path) (repo : string) (rest : list action) :
  (clone_block parent_exists target_exists parent_dir target repo ++ rest)%list <> [].
Proof. unfold clone_block. destruct parent_exists, target_exists; discriminate. Qed.

Lemma ensure_dictionaries_trace (dict_dir : path) (w : repo_world) :
  (ensure_dictionaries dict_dir w).1
  = if dict_exists w && dict_has_txt w then []
    else clone_block (dict_parent_exists w) (one_list_exists w)
           (path_parent dict_dir) (one_list_dir dict_dir) one_list_repo.
Proof.
  unfold ensure_dictionaries. destruct (dict_exists w && dict_has_txt w); reflexivity.
Qed.

Lemma ensure_templates_trace (nuclei_dir : path) (w : repo_world) :
  (ensure_templates nuclei_dir w).1
  = if nuclei_exists w && nuclei_has_yaml w then []
    else clone_block (nuclei_parent_exists w) (nuclei_still_exists w)
           (path_parent nuclei_dir) nuclei_dir nuclei_repo.
Proof.
  unfold ensure_templates. destruct (nuclei_exists w && nuclei_has_yaml w); reflexivity.
Qed.

(** The trace of the whole is the trace of the first half, followed by
    that of the second when the first half returns. *)
Lemma ensure_trace_split (dict_dir nuclei_dir : path) (w : repo_world) :
  (ensure_repositories dict_dir nuclei_dir w).1
  = ((ensure_dictionaries dict_dir w).1
     ++ match (ensure_dictionaries dict_dir w).2 with
        | Return _ => (ensure_templates nuclei_dir w).1
        | _ => []
        end)%list.
Proof.
  unfold ensure_repositories.
  destruct (ensure_dictionaries dict_dir w) as [done [[]| |]];
    destruct (ensure_templates nuclei_dir w) as [done' r']; cbn;
    rewrite ?app_nil_r; reflexivity.
Qed.

(** X28: whatever the file system holds and however git ends,
    ensure_repositories removes a directory only to clone into it at
    once: every rmtree is followed immediately by a git clone whose
    target is the directory removed; it clones at most the two
    repositories, OneListForAll first, each at most once, and does
    nothing at all exactly when both directories are already stocked. *)
Theorem ensure_repositories_trace (dict_dir nuclei_dir : path) (w : repo_world) :
  rmtree_then_clone (ensure_repositories dict_dir nuclei_dir w).1 = true
  /\ clones (ensure_repositories dict_dir nuclei_dir w).1
     `sublist_of` [(one_list_repo, one_list_dir dict_dir); (nuclei_repo, nuclei_dir)]
  /\ ((ensure_repositories dict_dir nuclei_dir w).1 = []
      <-> dict_exists w && dict_has_txt w = true
          /\ nuclei_exists w && nuclei_has_yaml w = true).
Proof.
  rewrite ensure_trace_split, ensure_dictionaries_trace, ensure_templates_trace.
  assert (Hret : dict_exists w && dict_has_txt w = true ->
                 (ensure_dictionaries dict_dir w).2 = Return tt).
  { intros H. unfold ensure_dictionaries. rewrite H. reflexivity. }
  destruct (dict_exists w && dict_has_txt w) eqn:Ed.
  - rewrite (Hret eq_refl). cbn [app].
    destruct (nuclei_exists w && nuclei_has_yaml w) eqn:En.
    + split; [reflexivity|]. split; [apply sublist_nil_l|]. tauto.
    + split; [|split].
      * rewrite <- (app_nil_r (clone_block _ _ _ _ _)). apply rmtree_then_clone_block.
      * rewrite clones_block. apply sublist_cons. reflexivity.
      * split; [intros H|intros [_ [=]]]. exfalso.
        apply (clone_block_nonempty (nuclei_parent_exists w) (nuclei_still_exists w)
                 (path_parent nuclei_dir) nuclei_dir nuclei_repo []).
        rewrite app_nil_r. exact H.
  - split; [|split].
    + rewrite rmtree_then_clone_block.
      destruct ((ensure_dictionaries dict_dir w).2) as [[]| |]; [|reflexivity|reflexivity].
      destruct (nuclei_exists w && nuclei_has_yaml w); [reflexivity|].
      rewrite <- (app_nil_r (clone_block _ _ _ _ _)). apply rmtree_then_clone_block.
    + unfold clones. rewrite omap_app. fold (clones (clone_block (dict_parent_exists w)
        (one_list_exists w) (path_parent dict_dir) (one_list_dir dict_dir) one_list_repo)).
      rewrite clones_block. cbn [app]. apply sublist_skip.
      destruct ((ensure_dictionaries dict_dir w).2) as [[]| |];
        [|apply sublist_nil_l|apply sublist_nil_l].
      destruct (nuclei_exists w && nuclei_has_yaml w); [apply sublist_nil_l|].
      fold (clones (clone_block (nuclei_parent_exists w) (nuclei_still_exists w)
                      (path_parent nuclei_dir) nuclei_dir nuclei_repo)).
      rewrite clones_block. reflexivity.
    + split; [intros H|intros [[=] _]]. exfalso.
      apply (clone_block_nonempty _ _ _ _ _ _ H).
Qed.


(** ** The wordlist's file name *)

Lemma contains_slash_app (d n : string) :
  PyStr.contains "/" (d ++ "/" ++ n) = true.
Proof.
  induction d as [|c d IH].
  - reflexivity.
  - change (PyStr.contains "/" (String c (d ++ "/" ++ n)) = true).
    cbn [PyStr.contains]. rewrite IH. apply orb_true_r.
Qed.

(** X26: the name recorded in "dict_used" is the wordlist's file
    name: taking the file name of the path built for a file of the
    dictionary directory gives that file's name back, whatever the
    directory's own path. *)
Theorem path_name_file_path (dict_path name : string) :
  endswith ".txt" name = true ->
  PyStr.contains "/" name = false ->
  path_name (file_path dict_path name) = name.
Proof.
  intros _ Hslash. unfold file_path. induction dict_path as [|c d IH].
  - change (path_name (String "/" name) = name). cbn [path_name].
    rewrite Hslash. reflexivity.
  - change (path_name (String c (d ++ "/" ++ name)) = name). cbn [path_name].
    rewrite contains_slash_app. exact IH.
Qed.

Lemma path_name_file_path_witness :
  endswith ".txt" "php_long.txt" = true
  /\ PyStr.contains "/" "php_long.txt" = false
  /\ path_name (file_path "OneListForAll/dict" "php_long.txt") = "php_long.txt".
Proof.
  split; [reflexivity|]. split; [reflexivity|].
  apply (path_name_file_path "OneListForAll/dict" "php_long.txt"); reflexivity.
Defined.

